(** * Cookie-support dashboard: aggregation and trend-line pipeline

    A shallow embedding of [streamlit/cookie_support.py]: the derived views
    computed from the telemetry table ([top_browsers], [by_day],
    [by_device], [total_by_device], [by_browser], [filtered_df],
    [filter_df_by_options], the slice-and-dice series), the trend
    estimator [line_of_best_fit] and the three trend lines the script
    draws with it.  The plotting functions and the Streamlit calls only
    display these values and are not modelled.

    The script is glue over pandas, numpy and scipy.  The library
    operations it calls are modelled in the modules [Int64], [Float64],
    [Py], [Pandas] and [Scipy] below, from the behaviour of the libraries;
    the definitions of the script itself follow, statement by statement,
    in [CookieSupport].

    The table.
    - A Dataset is the list of its rows, in file order.  Every row has a
      date, a device type and a browser name: missing keys, which
      [groupby] and [pivot_table] would drop, are not modelled.
    - [groupby(...).sum()] keeps the numeric columns [traffic] and
      [cookies_supported] and drops the string columns.

    Numbers.
    - The columns [traffic] and [cookies_supported] are integer counts,
      which [read_csv] loads as int64.  Sums of int64 wrap around; the wrap
      is written out in [Int64.wrap64].
    - float64 is modelled twice.  [Float64.float64] has the special values
      NaN, +inf and -inf with the IEEE rules for them, and finite values
      as exact rationals: it neither rounds nor overflows, and the sign of
      zero is not modelled (every zero divisor met in the script is an
      integer 0 converted to float or a sum of squares, hence +0).  The
      views and the trend estimator are embedded over it, and it decides
      faithfully what raises, what is NaN or infinite and what is finite
      as long as no float64 operation overflows.  Statements about the
      finite values themselves are made where float64 cannot overflow
      (a ratio of two int64 counts; in the trend estimator, values
      bounded by [moderate]) and hold of the code up to float64 rounding,
      or exactly where every number involved is an integer of at most
      2^53 ([small_counts]).
    - [Binary64] runs the trend estimator on IEEE binary64 itself (the
      kernel's primitive floats, with rounding and overflow): it shows
      what the code returns where the exact model and float64 part. *)

From Stdlib Require Import ZArith String Ascii Bool Lia.
From Stdlib Require Import QArith Qcanon.
From Stdlib Require PrimFloat.
From Stdlib Require Import List Permutation Sorted.
Import ListNotations.

Local Open Scope Z_scope.

(* ================================================================== *)
(** * int64 arithmetic *)

Module Int64.

(** Two's-complement reduction to the int64 range. *)
Definition wrap64 (z : Z) : Z := (z + 2 ^ 63) mod 2 ^ 64 - 2 ^ 63.

Definition add64 (a b : Z) : Z := wrap64 (a + b).

(** The accumulation loop of a column sum: start at 0, add each value. *)
Definition sum64 (l : list Z) : Z := fold_left add64 l 0.

(** The mathematical sum, for comparison. *)
Definition zsum (l : list Z) : Z := fold_right Z.add 0 l.

Definition in_range (z : Z) : Prop := - 2 ^ 63 <= z < 2 ^ 63.

End Int64.

(* ================================================================== *)
(** * float64 values *)

Module Float64.

Inductive float64 : Type :=
| Fin (q : Qc)
| PInf
| NInf
| NaN.

Definition sgn (q : Qc) : comparison := (q ?= 0)%Qc.

Definition of_int (z : Z) : float64 := Fin (Q2Qc (inject_Z z)).

Definition is_nan (x : float64) : bool :=
  match x with NaN => true | _ => false end.

Definition is_finite (x : float64) : bool :=
  match x with Fin _ => true | _ => false end.

Definition fneg (x : float64) : float64 :=
  match x with
  | Fin q => Fin (- q)%Qc
  | PInf => NInf
  | NInf => PInf
  | NaN => NaN
  end.

Definition fadd (x y : float64) : float64 :=
  match x, y with
  | NaN, _ | _, NaN => NaN
  | PInf, NInf | NInf, PInf => NaN
  | PInf, _ | _, PInf => PInf
  | NInf, _ | _, NInf => NInf
  | Fin a, Fin b => Fin (a + b)%Qc
  end.

Definition fsub (x y : float64) : float64 := fadd x (fneg y).

Definition fmul (x y : float64) : float64 :=
  match x, y with
  | NaN, _ | _, NaN => NaN
  | Fin a, Fin b => Fin (a * b)%Qc
  | Fin a, PInf | PInf, Fin a =>
      match sgn a with Eq => NaN | Gt => PInf | Lt => NInf end
  | Fin a, NInf | NInf, Fin a =>
      match sgn a with Eq => NaN | Gt => NInf | Lt => PInf end
  | PInf, PInf | NInf, NInf => PInf
  | PInf, NInf | NInf, PInf => NInf
  end.

(** numpy's [true_divide]: a zero divisor gives inf (non-zero dividend)
    or NaN (zero dividend), with a warning at most, never an exception. *)
Definition fdiv (x y : float64) : float64 :=
  match x, y with
  | NaN, _ | _, NaN => NaN
  | Fin a, Fin b =>
      match sgn b with
      | Eq => match sgn a with Eq => NaN | Gt => PInf | Lt => NInf end
      | _ => Fin (a / b)%Qc
      end
  | Fin _, _ => Fin 0%Qc
  | PInf, Fin b => match sgn b with Lt => NInf | _ => PInf end
  | NInf, Fin b => match sgn b with Lt => PInf | _ => NInf end
  | _, _ => NaN
  end.

Definition fsum (l : list float64) : float64 :=
  fold_left fadd l (Fin 0%Qc).

(** [nansum]: NaN entries count as missing and are skipped. *)
Definition nansum (l : list float64) : float64 :=
  fsum (filter (fun x => negb (is_nan x)) l).

End Float64.

(* ================================================================== *)
(** * Python exceptions *)

Module Py.

Inductive exception : Type :=
| ValueError (msg : string)
| AttributeError (attr : string).

Inductive result (A : Type) : Type :=
| Ok (a : A)
| Raise (e : exception).

Arguments Ok {A} a.
Arguments Raise {A} e.

Definition bind {A B : Type} (m : result A) (k : A -> result B) : result B :=
  match m with
  | Ok a => k a
  | Raise e => Raise e
  end.

Definition raises {A : Type} (m : result A) : bool :=
  match m with Ok _ => false | Raise _ => true end.

(** Truthiness of an optional string argument, as tested by [if s:]. *)
Definition truthy (s : option string) : bool :=
  match s with
  | None => false
  | Some s => negb (String.eqb s EmptyString)
  end.

(** [datetime.toordinal] pieces, used to write calendar dates. *)
Definition is_leap (year : Z) : bool :=
  (year mod 4 =? 0) && (negb (year mod 100 =? 0) || (year mod 400 =? 0)).

Definition days_before_year (year : Z) : Z :=
  let y := year - 1 in y * 365 + y / 4 - y / 100 + y / 400.

Definition DAYS_BEFORE_MONTH : list Z :=
  [-1; 0; 31; 59; 90; 120; 151; 181; 212; 243; 273; 304; 334].

Definition days_before_month (year month : Z) : Z :=
  nth (Z.to_nat month) DAYS_BEFORE_MONTH 0
  + (if (2 <? month) && is_leap year then 1 else 0).

Definition ymd2ord (year month day : Z) : Z :=
  days_before_year year + days_before_month year month + day.

End Py.

Notation "x <- m ;; k" := (Py.bind m (fun x => k))
  (at level 61, m at next level, right associativity).

(* ================================================================== *)
(** * The pandas operations used by the script *)

Module Pandas.
Import Int64 Float64 Py.

(** A [Timestamp] at day granularity: the number of days since
    1970-01-01, which is what the parsed [date] column holds. *)
Abbreviation Timestamp := Z (only parsing).

(** [Timestamp.toordinal()]: the proleptic Gregorian ordinal, day 1 being
    0001-01-01; 1970-01-01 has ordinal 719163. *)
Definition toordinal (d : Timestamp) : Z := d + 719163.

(** [pd.to_datetime] of a ['%Y-%m-%d'] date. *)
Definition to_datetime (year month day : Z) : Timestamp :=
  ymd2ord year month day - 719163.

Record row : Type := mk_row {
  date : Timestamp;
  device_type : string;
  browser_name : string;
  traffic : Z;
  cookies_supported : Z
}.

Definition DataFrame : Type := list row.

(** Group keys: the equality test that forms the groups and the order
    that sorts them. *)
Class Key (K : Type) : Type := {
  keqb : K -> K -> bool;
  kltb : K -> K -> bool
}.

#[export] Instance Key_Z : Key Z :=
  {| keqb := Z.eqb; kltb := Z.ltb |}.

#[export] Instance Key_string : Key string :=
  {| keqb := String.eqb; kltb := String.ltb |}.

(** A two-level key (the MultiIndex of a pivot): lexicographic order. *)
#[export] Instance Key_pair {A B : Type} `{Key A} `{Key B} : Key (A * B) :=
  {| keqb := fun a b => keqb (fst a) (fst b) && keqb (snd a) (snd b);
     kltb := fun a b =>
       kltb (fst a) (fst b)
       || (keqb (fst a) (fst b) && kltb (snd a) (snd b)) |}.

(** One row of [groupby(key).sum()]: the key and the two numeric columns
    (the string columns are dropped by the sum). *)
Record group (K : Type) : Type := mk_group {
  gkey : K;
  gtraffic : Z;
  gcookies : Z
}.
Arguments mk_group {K}.
Arguments gkey {K}.
Arguments gtraffic {K}.
Arguments gcookies {K}.

Section GroupBy.
Context {K : Type} `{Key K}.

(** Add one row to the accumulator of its group; a key not seen so far
    opens a new group at the end. *)
Fixpoint group_add (k : K) (t c : Z) (acc : list (group K))
  : list (group K) :=
  match acc with
  | [] => [mk_group k (add64 0 t) (add64 0 c)]
  | g :: rest =>
      if keqb k (gkey g)
      then mk_group (gkey g) (add64 (gtraffic g) t) (add64 (gcookies g) c)
           :: rest
      else g :: group_add k t c rest
  end.

(** Groups in order of first appearance, each with its int64 sums. *)
Definition groups (key : row -> K) (df : DataFrame) : list (group K) :=
  fold_left
    (fun acc r => group_add (key r) (traffic r) (cookies_supported r) acc)
    df [].

Fixpoint insert_by_key (g : group K) (l : list (group K))
  : list (group K) :=
  match l with
  | [] => [g]
  | h :: t =>
      if kltb (gkey g) (gkey h) then g :: l else h :: insert_by_key g t
  end.

Definition sort_by_key (l : list (group K)) : list (group K) :=
  fold_right insert_by_key [] l.

(** [df.groupby(key).sum().reset_index()]: groups sorted by key. *)
Definition groupby_sum (key : row -> K) (df : DataFrame)
  : list (group K) :=
  sort_by_key (groups key df).

Fixpoint find_group (k : K) (l : list (group K)) : option (group K) :=
  match l with
  | [] => None
  | g :: rest => if keqb k (gkey g) then Some g else find_group k rest
  end.

(** [sort_values(by='traffic', ascending=False)].  Rows with equal
    traffic keep their relative order (numpy's default sort promises no
    order among them on long arrays; the order kept here is the tie-break
    the specification names). *)
Fixpoint insert_desc (g : group K) (l : list (group K))
  : list (group K) :=
  match l with
  | [] => [g]
  | h :: t =>
      if gtraffic h <=? gtraffic g then g :: l
      else h :: insert_desc g t
  end.

Definition sort_values_traffic_desc (l : list (group K))
  : list (group K) :=
  fold_right insert_desc [] l.

(** Distinct keys, first occurrences kept. *)
Fixpoint unique (l : list K) : list K :=
  match l with
  | [] => []
  | k :: rest =>
      k :: filter (fun k' => negb (keqb k' k)) (unique rest)
  end.

Fixpoint insert_key (k : K) (l : list K) : list K :=
  match l with
  | [] => [k]
  | h :: t => if kltb k h then k :: l else h :: insert_key k t
  end.

Definition sort_keys (l : list K) : list K := fold_right insert_key [] l.

End GroupBy.

(** [Series.isin(values)]. *)
Definition isin (values : list string) (s : string) : bool :=
  existsb (String.eqb s) values.

(** A column of a pivot table with its dtype. *)
Inductive Series : Type :=
| IntCol (l : list Z)
| FltCol (l : list float64).

Definition is_int_col (s : Series) : bool :=
  match s with IntCol _ => true | FltCol _ => false end.

Definition to_floats (s : Series) : list float64 :=
  match s with
  | IntCol l => map of_int l
  | FltCol l => l
  end.

Definition to_ints (s : Series) : list Z :=
  match s with
  | IntCol l => l
  | FltCol _ => []
  end.

Definition map2 {A B C : Type} (f : A -> B -> C) (l : list A) (m : list B)
  : list C :=
  map (fun p => f (fst p) (snd p)) (combine l m).

(** [a + b] on two columns of one frame. *)
Definition series_add (a b : Series) : Series :=
  match a, b with
  | IntCol x, IntCol y => IntCol (map2 add64 x y)
  | _, _ => FltCol (map2 fadd (to_floats a) (to_floats b))
  end.

(** [a / b]: true division, always float64. *)
Definition series_truediv (a b : Series) : Series :=
  FltCol (map2 fdiv (to_floats a) (to_floats b)).

(** [s * k] for a Python int [k]. *)
Definition series_mul_int (s : Series) (k : Z) : Series :=
  match s with
  | IntCol l => IntCol (map (fun z => wrap64 (z * k)) l)
  | FltCol l => FltCol (map (fun x => fmul x (of_int k)) l)
  end.

(** A pivot table: the index (dates) and the named columns in order. *)
Record Frame : Type := mk_frame {
  index : list Timestamp;
  columns : list (string * Series)
}.

Fixpoint lookup (name : string) (cols : list (string * Series))
  : option Series :=
  match cols with
  | [] => None
  | (n, s) :: rest => if String.eqb name n then Some s else lookup name rest
  end.

(** [frame.name]: the column of that name, or [AttributeError]. *)
Definition getattr (f : Frame) (name : string) : result Series :=
  match lookup name (columns f) with
  | Some s => Ok s
  | None => Raise (AttributeError name)
  end.

(** [frame[name] = s]: replaces the column in place, or appends it. *)
Fixpoint set_column (name : string) (s : Series)
  (cols : list (string * Series)) : list (string * Series) :=
  match cols with
  | [] => [(name, s)]
  | (n, s0) :: rest =>
      if String.eqb name n then (n, s) :: rest
      else (n, s0) :: set_column name s rest
  end.

Definition setitem (f : Frame) (name : string) (s : Series) : Frame :=
  mk_frame (index f) (set_column name s (columns f)).

(** [frame.sum(axis=1)]: the sum of each row over all columns.  Integer
    columns give an int64 sum; with float columns the NaN cells are
    skipped; a frame without columns gives 0.0. *)
Definition sum_axis1 (f : Frame) : Series :=
  let rows := seq 0 (length (index f)) in
  match columns f with
  | [] => FltCol (map (fun _ => Fin 0%Qc) rows)
  | cols =>
      if forallb (fun c => is_int_col (snd c)) cols
      then IntCol (map (fun i =>
             sum64 (map (fun c => nth i (to_ints (snd c)) 0) cols)) rows)
      else FltCol (map (fun i =>
             nansum (map (fun c => nth i (to_floats (snd c)) NaN) cols)) rows)
  end.

Definition is_some {A : Type} (o : option A) : bool :=
  match o with Some _ => true | None => false end.

(** Unstacking one column: with no cell missing anywhere in the table the
    values stay int64; otherwise the table is float64 and the missing
    cells are NaN. *)
Definition unstack_column (all_present : bool) (cells : list (option Z))
  : Series :=
  if all_present
  then IntCol (map (fun c => match c with Some z => z | None => 0 end) cells)
  else FltCol (map (fun c =>
         match c with Some z => of_int z | None => NaN end) cells).

(** [pd.pivot_table(df, values='traffic', index=['date'],
    columns=[col], aggfunc=np.sum)]: the traffic summed per (date, col)
    ([pivot_groups]) and unstacked, dates down, the values of [col]
    across, both sorted. *)
Definition pivot_groups (df : DataFrame) (col : row -> string)
  : list (group (Timestamp * string)) :=
  groupby_sum (fun r => (date r, col r)) df.

Definition pivot_table (df : DataFrame) (col : row -> string) : Frame :=
  let grouped := pivot_groups df col in
  let idx := sort_keys (unique (map (fun g => fst (gkey g)) grouped)) in
  let names := sort_keys (unique (map (fun g => snd (gkey g)) grouped)) in
  let cell d c := option_map gtraffic (find_group (d, c) grouped) in
  let raw := map (fun c => (c, map (fun d => cell d c) idx)) names in
  let all_present := forallb (fun rc => forallb is_some (snd rc)) raw in
  mk_frame idx
    (map (fun rc => (fst rc, unstack_column all_present (snd rc))) raw).

(** The position of a date in the index. *)
Fixpoint position (d : Timestamp) (idx : list Timestamp) : option nat :=
  match idx with
  | [] => None
  | h :: t => if Z.eqb d h then Some O else option_map S (position d t)
  end.

(** [frame[name][d]] as a float, if the column and the date exist. *)
Definition at_date (f : Frame) (name : string) (d : Timestamp)
  : option float64 :=
  match lookup name (columns f), position d (index f) with
  | Some s, Some i => nth_error (to_floats s) i
  | _, _ => None
  end.

End Pandas.

(* ================================================================== *)
(** * scipy.stats.linregress *)

Module Scipy.
Import Int64 Float64 Py Pandas.

Definition zmax (l : list Z) : Z :=
  match l with [] => 0 | h :: t => fold_left Z.max t h end.

Definition zmin (l : list Z) : Z :=
  match l with [] => 0 | h :: t => fold_left Z.min t h end.

(** [np.mean]. *)
Definition mean (l : list float64) : float64 :=
  fdiv (fsum l) (of_int (Z.of_nat (length l))).

(** One entry of [np.cov(x, y, bias=1)]: the mean of the products of the
    deviations from the means. *)
Definition cov1 (n : nat) (dx dy : list float64) : float64 :=
  fmul (fsum (map2 fmul dx dy)) (fdiv (of_int 1) (of_int (Z.of_nat n))).

(** [linregress(x, y)] for a list [x] of ints.  Only [slope] and
    [intercept] are returned: the caller discards the r-value, the
    p-value and the standard error, whose computation raises nothing. *)
Definition linregress (x : list Z) (y : list float64)
  : result (float64 * float64) :=
  if (length x =? 0)%nat || (length y =? 0)%nat
  then Raise (ValueError "Inputs must not be empty.")
  else if (zmax x =? zmin x) && (1 <? length x)%nat
  then Raise (ValueError
    "Cannot calculate a linear regression if all x values are identical")
  else
    let n := length x in
    let xf := map of_int x in
    let xmean := mean xf in
    let ymean := mean y in
    if negb (length x =? length y)%nat
    then Raise (ValueError
      "all the input array dimensions except for the concatenation axis must match exactly")
    else
      let dx := map (fun v => fsub v xmean) xf in
      let dy := map (fun v => fsub v ymean) y in
      let ssxm := cov1 n dx dx in
      let ssxym := cov1 n dx dy in
      let slope := fdiv ssxym ssxm in
      let intercept := fsub ymean (fmul slope xmean) in
      Ok (slope, intercept).

End Scipy.

(* ================================================================== *)
(** * The script *)

Module CookieSupport.
Import Int64 Float64 Py Pandas Scipy.

Definition top_devices : list string :=
  ["desktop"; "mobile"; "tablet"]%string.

(** [df.groupby('browser_name').sum().reset_index()
      .sort_values(by='traffic', ascending=False).head(14)
      .browser_name.to_list()].  On a Dataset without any row pandas
    finds no [traffic] column to sort by and raises KeyError; the list is
    empty here, and statements on how many names are selected are made
    on Datasets with at least one row. *)
Definition top_browsers (df : DataFrame) : list string :=
  map gkey
    (firstn 14 (sort_values_traffic_desc (groupby_sum browser_name df))).

(** A row of an aggregated frame with its percentage column. *)
Record agg (K : Type) : Type := mk_agg {
  akey : K;
  atraffic : Z;
  acookies : Z;
  cookie_support_pct : float64
}.
Arguments mk_agg {K}.
Arguments akey {K}.
Arguments atraffic {K}.
Arguments acookies {K}.
Arguments cookie_support_pct {K}.

(** [(cookies_supported / traffic) * 100] on one row. *)
Definition pct (cookies traffic : Z) : float64 :=
  fmul (fdiv (of_int cookies) (of_int traffic)) (of_int 100).

Definition with_pct {K : Type} (l : list (group K)) : list (agg K) :=
  map (fun g =>
    mk_agg (gkey g) (gtraffic g) (gcookies g)
           (pct (gcookies g) (gtraffic g))) l.

Definition by_day (df : DataFrame) : list (agg Timestamp) :=
  with_pct (groupby_sum date df).

Definition by_device (df : DataFrame) : result Frame :=
  let sel :=
    filter (fun r =>
      isin ["desktop"; "mobile"; "tablet"]%string (device_type r)) df in
  let f := pivot_table sel device_type in
  let f := setitem f "total" (sum_axis1 f) in
  mobile <- getattr f "mobile" ;;
  tablet <- getattr f "tablet" ;;
  let f := setitem f "mobile_tablet" (series_add mobile tablet) in
  mobile_tablet <- getattr f "mobile_tablet" ;;
  total <- getattr f "total" ;;
  Ok (setitem f "mobile_tablet_pct"
        (series_mul_int (series_truediv mobile_tablet total) 100)).

Definition total_by_device (df : DataFrame) : list (agg string) :=
  with_pct
    (groupby_sum device_type
       (filter (fun r => isin top_devices (device_type r)) df)).

Definition by_browser (df : DataFrame) : result Frame :=
  let f := pivot_table df browser_name in
  let f := setitem f "total" (sum_axis1 f) in
  chrome <- getattr f "Chrome" ;;
  total <- getattr f "total" ;;
  Ok (setitem f "chrome_pct"
        (series_mul_int (series_truediv chrome total) 100)).

Definition filtered_df (df : DataFrame) : DataFrame :=
  filter (fun r =>
    isin top_devices (device_type r)
    && isin (top_browsers df) (browser_name r)) df.

Definition filter_df_by_options (df : DataFrame)
  (device_type_opt browser_name_opt : option string) : DataFrame :=
  let df :=
    match device_type_opt with
    | Some d =>
        if truthy device_type_opt
        then filter (fun r => String.eqb (device_type r) d) df
        else df
    | None => df
    end in
  match browser_name_opt with
  | Some b =>
      if truthy browser_name_opt
      then filter (fun r => String.eqb (browser_name r) b) df
      else df
  | None => df
  end.

Definition line_of_best_fit (dates : list Timestamp) (y : list float64)
  : result (list float64) :=
  let x := map toordinal dates in
  si <- linregress x y ;;
  let g xi := fadd (fmul (fst si) (of_int xi)) (snd si) in
  Ok (map g x).

(** Lines 195-197: the filtered subset aggregated by date. *)
Definition slice_dice_df (df : DataFrame)
  (device_option browser_option : option string) : list (agg Timestamp) :=
  with_pct
    (groupby_sum date
       (filter_df_by_options (filtered_df df) device_option browser_option)).

(** Line 199: the trend line of the slice-and-dice series. *)
Definition best_fit_slice_dice (df : DataFrame)
  (device_option browser_option : option string) : result (list float64) :=
  let s := slice_dice_df df device_option browser_option in
  line_of_best_fit (map akey s) (map cookie_support_pct s).

(** Line 128: the trend line of the daily series. *)
Definition best_fit_cookie_support (df : DataFrame) : result (list float64) :=
  line_of_best_fit (map akey (by_day df))
                   (map cookie_support_pct (by_day df)).

(** Line 154: the trend line of the mobile and tablet share. *)
Definition best_fit_mobile (df : DataFrame) : result (list float64) :=
  f <- by_device df ;;
  mobile_tablet_pct <- getattr f "mobile_tablet_pct" ;;
  line_of_best_fit (index f) (to_floats mobile_tablet_pct).

End CookieSupport.

(* ================================================================== *)
(** * The trend estimator on IEEE binary64 *)

(** [linregress] and [line_of_best_fit] once more, statement by statement
    as in [Scipy] and [CookieSupport], over the kernel's binary64 floats:
    every operation rounds to nearest even and overflows to an infinity,
    as numpy's float64 does. *)
Module Binary64.
Import Py Pandas Scipy.
Import PrimFloat.
Local Open Scope float_scope.

(** An integer as a float64.  Exact below 2^53, which covers the
    ordinals of dates and the lengths of lists; larger integers are not
    converted by the trend estimator. *)
Fixpoint of_pos (p : positive) : float :=
  match p with
  | xH => 1
  | xO q => 2 * of_pos q
  | xI q => 2 * of_pos q + 1
  end.

Definition of_int (z : Z) : float :=
  match z with
  | Z0 => 0
  | Zpos p => of_pos p
  | Zneg p => - of_pos p
  end.

(** [np.sum], left to right (numpy adds pairwise from 8 elements on,
    which rounds differently but overflows alike). *)
Definition fsum (l : list float) : float := fold_left add l 0.

Definition mean (l : list float) : float :=
  fsum l / of_int (Z.of_nat (length l)).

Definition cov1 (n : nat) (dx dy : list float) : float :=
  fsum (map2 mul dx dy) * (1 / of_int (Z.of_nat n)).

Definition linregress (x : list Z) (y : list float)
  : result (float * float) :=
  if (length x =? 0)%nat || (length y =? 0)%nat
  then Raise (ValueError "Inputs must not be empty.")
  else if (zmax x =? zmin x)%Z && (1 <? length x)%nat
  then Raise (ValueError
    "Cannot calculate a linear regression if all x values are identical")
  else
    let n := length x in
    let xf := map of_int x in
    let xmean := mean xf in
    let ymean := mean y in
    if negb (length x =? length y)%nat
    then Raise (ValueError
      "all the input array dimensions except for the concatenation axis must match exactly")
    else
      let dx := map (fun v => v - xmean) xf in
      let dy := map (fun v => v - ymean) y in
      let ssxm := cov1 n dx dx in
      let ssxym := cov1 n dx dy in
      let slope := ssxym / ssxm in
      let intercept := ymean - slope * xmean in
      Ok (slope, intercept).

Definition line_of_best_fit (dates : list Timestamp) (y : list float)
  : result (list float) :=
  let x := map toordinal dates in
  si <- linregress x y ;;
  let g xi := fst si * of_int xi + snd si in
  Ok (map g x).

(** Three finite values near the largest float64 (the float64 nearest to
    1e308, twice, and its opposite). *)
Definition huge_values : list float :=
  [0x1.1ccf385ebc8ap+1023; 0x1.1ccf385ebc8ap+1023; -0x1.1ccf385ebc8ap+1023].

(** The line of slope 2^1023 through 0 at the middle one of three
    consecutive dates: its three values are finite float64. *)
Definition steep_slope : float := 0x1p1023.

Definition steep_line : list float := [-0x1p1023; 0; 0x1p1023].

End Binary64.

Import Int64 Float64 Py Pandas Scipy CookieSupport.

(* ================================================================== *)
(** * Vocabulary of the statements *)

(** The laws of a group key: [keqb] decides equality. *)
Class KeyLaws (K : Type) `{Key K} : Prop := {
  keqb_eq : forall a b : K, keqb a b = true <-> a = b
}.

(** The order of a group key is a strict total order. *)
Class KeyOrder (K : Type) `{Key K} : Prop := {
  kltb_irrefl : forall a : K, kltb a a = false;
  kltb_trans : forall a b c : K,
    kltb a b = true -> kltb b c = true -> kltb a c = true;
  kltb_total : forall a b : K,
    a <> b -> kltb a b = true \/ kltb b a = true
}.

(** Increasing order of the group keys. *)
Definition key_lt {K : Type} `{Key K} (a b : group K) : Prop :=
  kltb (gkey a) (gkey b) = true.

(** An integer as an exact rational. *)
Definition Zq (z : Z) : Qc := Q2Qc (inject_Z z).

(** The rows of the group of key [k]. *)
Definition members {K : Type} `{Key K} (key : row -> K) (k : K)
  (df : DataFrame) : DataFrame :=
  filter (fun r => keqb (key r) k) df.

(** The group of key [k] as [groupby(key).sum()] should report it. *)
Definition group_of {K : Type} `{Key K} (key : row -> K) (k : K)
  (df : DataFrame) : group K :=
  mk_group k (sum64 (map traffic (members key k df)))
             (sum64 (map cookies_supported (members key k df))).

(** The group a row lands in, given what was found for its key. *)
Definition bump {K : Type} (o : option (group K)) (k : K) (t c : Z)
  : group K :=
  match o with
  | Some g => mk_group (gkey g) (add64 (gtraffic g) t) (add64 (gcookies g) c)
  | None => mk_group k (add64 0 t) (add64 0 c)
  end.

(** The rows the device views are computed from. *)
Definition known_devices (df : DataFrame) : DataFrame :=
  filter (fun r => isin top_devices (device_type r)) df.

(** The traffic cell of a date and a column value: the int64 sum over the
    rows carrying both, or nothing when there is no such row. *)
Definition cell_rows (df : DataFrame) (col : row -> string)
  (d : Timestamp) (c : string) : DataFrame :=
  filter (fun r => Z.eqb (date r) d && String.eqb (col r) c) df.

Definition cell (df : DataFrame) (col : row -> string)
  (d : Timestamp) (c : string) : option Z :=
  match cell_rows df col d c with
  | [] => None
  | rows => Some (sum64 (map traffic rows))
  end.

(** Index, column names and columns of [pivot_table df col]. *)
Definition pidx (df : DataFrame) (col : row -> string) : list Timestamp :=
  sort_keys (unique (map (fun g => fst (gkey g)) (pivot_groups df col))).

Definition pnames (df : DataFrame) (col : row -> string) : list string :=
  sort_keys (unique (map (fun g => snd (gkey g)) (pivot_groups df col))).

Definition all_present (df : DataFrame) (col : row -> string) : bool :=
  forallb (fun c => forallb (fun d => is_some (cell df col d c)) (pidx df col))
    (pnames df col).

Definition pcolumn (df : DataFrame) (col : row -> string) (c : string)
  : Series :=
  unstack_column (all_present df col)
    (map (fun d => cell df col d c) (pidx df col)).

(** A pivot cell as a float: a missing cell is NaN. *)
Definition cell_float (o : option Z) : float64 :=
  match o with Some z => of_int z | None => NaN end.

(** The percentage of a part in a whole, on one row. *)
Definition ratio_pct (part whole : float64) : float64 :=
  fmul (fdiv part whole) (of_int 100).

(** Datasets used as examples. *)
Definition example_dataset : DataFrame :=
  [ mk_row (to_datetime 2021 1 1) "desktop" "Chrome" 100 30;
    mk_row (to_datetime 2021 1 1) "mobile" "Chrome" 50 40 ].

Definition other_device_dataset : DataFrame :=
  [ mk_row (to_datetime 2021 1 1) "other" "Chrome" 10 5 ].

Definition zero_traffic_dataset : DataFrame :=
  [ mk_row (to_datetime 2021 1 1) "desktop" "Chrome" 0 5 ].

Definition chrome_safari_dataset : DataFrame :=
  [ mk_row (to_datetime 2021 1 1) "desktop" "Chrome" 100 30;
    mk_row (to_datetime 2021 1 1) "mobile" "Chrome" 50 40;
    mk_row (to_datetime 2021 1 2) "desktop" "Safari" 20 1 ].

Definition firefox_dataset : DataFrame :=
  [ mk_row (to_datetime 2021 1 1) "desktop" "Firefox" 100 90;
    mk_row (to_datetime 2021 1 2) "mobile" "Safari" 50 10 ].

Definition has_rows (df : DataFrame) (d : Timestamp) (dev : string) : Prop :=
  exists r, In r df /\ date r = d /\ device_type r = dev.

Definition device_frame (df : DataFrame) : Frame :=
  let f := pivot_table (known_devices df) device_type in
  let total := sum_axis1 f in
  let mobile_tablet :=
    series_add (pcolumn (known_devices df) device_type "mobile")
               (pcolumn (known_devices df) device_type "tablet") in
  mk_frame (index f)
    (set_column "mobile_tablet_pct"
       (series_mul_int (series_truediv mobile_tablet total) 100)
       (set_column "mobile_tablet" mobile_tablet
          (set_column "total" total (columns f)))).

Definition zero_mobile_tablet_dataset : DataFrame :=
  [ mk_row (to_datetime 2021 1 1) "mobile" "Safari" 0 0;
    mk_row (to_datetime 2021 1 1) "tablet" "Safari" 0 0 ].

Definition desktop_only_dataset : DataFrame :=
  [ mk_row (to_datetime 2021 1 1) "desktop" "Chrome" 100 30 ].

(** The summed traffic of a browser over the whole Dataset. *)
Definition browser_traffic (df : DataFrame) (b : string) : Z :=
  sum64 (map traffic (members browser_name b df)).

(** The browsers of the Dataset, by decreasing traffic. *)
Definition ranked_browsers (df : DataFrame) : list (group string) :=
  sort_values_traffic_desc (groupby_sum browser_name df).

(** Re-running the selection in a session: the Dataset is held by the
    session and read, never written, by the selection. *)
Definition rerun_top_browsers (cached : DataFrame)
  : DataFrame * (list string * list string) :=
  let first := top_browsers cached in
  let second := top_browsers cached in
  (cached, (first, second)).

Definition descending (df : DataFrame) (a b : string) : Prop :=
  browser_traffic df b <= browser_traffic df a.

Definition three_browsers_dataset : DataFrame :=
  [ mk_row (to_datetime 2021 1 1) "desktop" "Safari" 20 1;
    mk_row (to_datetime 2021 1 1) "desktop" "Chrome" 100 30;
    mk_row (to_datetime 2021 1 2) "mobile" "Firefox" 20 19;
    mk_row (to_datetime 2021 1 2) "mobile" "Chrome" 50 40 ].

(** Decreasing order of the traffic column. *)
Definition ge_traffic {K : Type} (a b : group K) : Prop :=
  gtraffic b <= gtraffic a.

(** Exact arithmetic on the fitted points. *)
Local Open Scope Qc_scope.

(** The sum of a list of rationals, in the order [np.sum] is modelled. *)
Definition qsuml (l : list Qc) : Qc := fold_left Qcplus l 0.

Definition qsum (l : list Qc) : Qc := fold_right Qcplus 0 l.

Definition qmean (l : list Qc) : Qc := qsuml l / Zq (Z.of_nat (length l)).

Definition qcov (n : nat) (dx dy : list Qc) : Qc :=
  qsuml (map2 Qcmult dx dy) * (Zq 1 / Zq (Z.of_nat n)).

(** Slope and intercept as [linregress] computes them, in exact
    arithmetic. *)
Definition exact_fit (xs ys : list Qc) : Qc * Qc :=
  let n := length xs in
  let xmean := qmean xs in
  let ymean := qmean ys in
  let dx := map (fun v => v + - xmean) xs in
  let dy := map (fun v => v + - ymean) ys in
  let ssxm := qcov n dx dx in
  let ssxym := qcov n dx dy in
  let slope := ssxym / ssxm in
  (slope, ymean + - (slope * xmean)).

(** The sum of squared residuals of the line [a * x + b]. *)
Definition SSR (xs ys : list Qc) (a b : Qc) : Qc :=
  qsum (map2 (fun x y => (y - (a * x + b)) * (y - (a * x + b))) xs ys).

Definition ordinals (dates : list Timestamp) : list Qc :=
  map (fun d => Zq (toordinal d)) dates.

(** Moments of a list of points. *)
Definition moment (f : Qc * Qc -> Qc) (ps : list (Qc * Qc)) : Qc :=
  qsum (map f ps).

Definition M0 (ps : list (Qc * Qc)) : Qc := moment (fun _ => 1) ps.
Definition Mx (ps : list (Qc * Qc)) : Qc := moment fst ps.
Definition My (ps : list (Qc * Qc)) : Qc := moment snd ps.
Definition Mxx (ps : list (Qc * Qc)) : Qc :=
  moment (fun p => fst p * fst p) ps.
Definition Mxy (ps : list (Qc * Qc)) : Qc :=
  moment (fun p => fst p * snd p) ps.
Definition Myy (ps : list (Qc * Qc)) : Qc :=
  moment (fun p => snd p * snd p) ps.

(** Residual of a point against the line [a * x + b]. *)
Definition resid (a b : Qc) (p : Qc * Qc) : Qc := snd p - (a * fst p + b).

(** The centred second moments. *)
Definition Sxx (ps : list (Qc * Qc)) : Qc :=
  moment (fun p => (fst p + - (Mx ps / M0 ps)) * (fst p + - (Mx ps / M0 ps)))
    ps.

Definition Sxy (ps : list (Qc * Qc)) : Qc :=
  moment (fun p => (fst p + - (Mx ps / M0 ps)) * (snd p + - (My ps / M0 ps)))
    ps.

(** The points fitted by [line_of_best_fit dates ys]. *)
Definition points (dates : list Timestamp) (ys : list Qc)
  : list (Qc * Qc) :=
  combine (ordinals dates) ys.

(** The values of the line [k * ordinal(date) + c] at the dates. *)
Definition on_line (k c : Qc) (dates : list Timestamp) : list Qc :=
  map (fun d => k * Zq (toordinal d) + c) dates.

Local Close Scope Qc_scope.

(** The test a row passes under the two optional filters: a filter that
    is absent or the empty string restricts nothing. *)
Definition passes (device_opt browser_opt : option string) (r : row) : bool :=
  match device_opt with
  | Some d => negb (truthy device_opt) || String.eqb (device_type r) d
  | None => true
  end
  && match browser_opt with
     | Some b => negb (truthy browser_opt) || String.eqb (browser_name r) b
     | None => true
     end.

(** The distinct browser names of a table, in order of appearance. *)
Definition browsers (df : DataFrame) : list string :=
  unique (map browser_name df).

(** Increasing order of keys. *)
Definition klt {K : Type} `{Key K} (a b : K) : Prop := kltb a b = true.

(** The device types of a table among desktop, mobile and tablet. *)
Definition devices_present (df : DataFrame) : list string :=
  filter (fun dev => existsb (fun r => String.eqb (device_type r) dev) df)
    top_devices.

(** The traffic of the rows of one date. *)
Definition day_traffic (df : DataFrame) (d : Timestamp) : Z :=
  zsum (map traffic (filter (fun r => Z.eqb (date r) d) df)).

(** A pivot cell as an integer: a missing cell counts for nothing. *)
Definition cell_int (o : option Z) : Z :=
  match o with Some z => z | None => 0 end.

(** A frame is well formed when its dates increase, its column names are
    distinct and every column has one cell per date. *)
Definition well_formed (f : Frame) : Prop :=
  StronglySorted Z.lt (index f)
  /\ NoDup (map fst (columns f))
  /\ forall n s, In (n, s) (columns f) ->
       length (to_floats s) = length (index f).

(** Every row supports cookies on part of its traffic, and the traffic
    adds up within int64. *)
Definition consistent (df : DataFrame) : Prop :=
  (forall r, In r df -> 0 <= cookies_supported r <= traffic r)
  /\ zsum (map traffic df) < 2 ^ 63.

(** A percentage column entry: undefined on a group without traffic,
    otherwise a number between 0 and 100. *)
Definition pct_in_range {K : Type} (e : agg K) : Prop :=
  (atraffic e = 0 /\ cookie_support_pct e = NaN)
  \/ (0 < atraffic e
      /\ exists q, cookie_support_pct e = Fin q
                   /\ (Zq 0 <= q)%Qc /\ (q <= Zq 100)%Qc).

(** A value of magnitude at most 2^70.  Every finite percentage of int64
    counts is one, and on such values, at the ordinals of dates (below
    2^22), no float64 operation of the trend estimator can overflow. *)
Definition moderate (q : Qc) : Prop :=
  (- Zq (2 ^ 70) <= q)%Qc /\ (q <= Zq (2 ^ 70))%Qc.

(** Traffic counts that are not negative and add up to at most 2^53:
    int64 sums do not wrap and every count, cell and sum of cells is a
    float64 exactly. *)
Definition small_counts (df : DataFrame) : Prop :=
  (forall r, In r df -> 0 <= traffic r) /\ zsum (map traffic df) <= 2 ^ 53.

Definition three_dates : list Timestamp :=
  [to_datetime 2021 1 1; to_datetime 2021 1 2; to_datetime 2021 1 3].

(** A Dataset with a Chrome row and rows of all three device types, some
    (date, device) and (date, browser) cells missing. *)
Definition all_devices_dataset : DataFrame :=
  [ mk_row (to_datetime 2021 1 1) "desktop" "Chrome" 100 30;
    mk_row (to_datetime 2021 1 1) "mobile" "Chrome" 50 40;
    mk_row (to_datetime 2021 1 2) "tablet" "Safari" 20 1 ].

(** Closes an equation between evaluated values: rationals are compared
    through their canonical form. *)
Ltac qc_eq :=
  match goal with |- @eq Qc _ _ => apply Qc_is_canon; reflexivity end.
Ltac float_eq := repeat first [ qc_eq | reflexivity | f_equal ].

(** Closes the bounds of concrete values. *)
Ltac in_bounds := repeat constructor; vm_compute; discriminate.

(* ================================================================== *)
(** * Key laws *)

#[export] Instance KeyLaws_Z : KeyLaws Z.
Proof. constructor. exact Z.eqb_eq. Qed.

#[export] Instance KeyLaws_string : KeyLaws string.
Proof. constructor. exact String.eqb_eq. Qed.

#[export] Instance KeyLaws_pair {A B : Type} `{KeyLaws A} `{KeyLaws B}
  : KeyLaws (A * B).
Proof.
  constructor. intros [a1 a2] [b1 b2]. simpl.
  rewrite andb_true_iff, !keqb_eq. split.
  - intros [-> ->]; reflexivity.
  - intros E; inversion E; auto.
Qed.

(* ================================================================== *)
(** * Facts about int64 sums *)

Section Int64Facts.

Lemma wrap64_mod (a b : Z) :
  wrap64 a = wrap64 b <-> a mod 2 ^ 64 = b mod 2 ^ 64.
Proof.
  unfold wrap64. split; intros E.
  - assert (E' : (a + 2 ^ 63) mod 2 ^ 64 = (b + 2 ^ 63) mod 2 ^ 64) by lia.
    rewrite <- (Z.add_simpl_r a (2 ^ 63)), <- (Z.add_simpl_r b (2 ^ 63)).
    rewrite <- Zminus_mod_idemp_l, E', Zminus_mod_idemp_l. reflexivity.
  - rewrite <- Zplus_mod_idemp_l, E, Zplus_mod_idemp_l. reflexivity.
Qed.

Lemma wrap64_idem (a : Z) : wrap64 (wrap64 a) = wrap64 a.
Proof.
  apply wrap64_mod. unfold wrap64.
  rewrite <- Zminus_mod_idemp_l, Zmod_mod, Zminus_mod_idemp_l.
  f_equal. lia.
Qed.

Lemma wrap64_add_l (a b : Z) : wrap64 (wrap64 a + b) = wrap64 (a + b).
Proof.
  apply wrap64_mod.
  rewrite <- Zplus_mod_idemp_l.
  rewrite (proj1 (wrap64_mod (wrap64 a) a) (wrap64_idem a)).
  rewrite Zplus_mod_idemp_l. reflexivity.
Qed.

Lemma wrap64_add_r (a b : Z) : wrap64 (a + wrap64 b) = wrap64 (a + b).
Proof. rewrite Z.add_comm, wrap64_add_l, Z.add_comm. reflexivity. Qed.

Lemma wrap64_add_congr (a x y : Z) :
  wrap64 x = wrap64 y -> wrap64 (a + x) = wrap64 (a + y).
Proof.
  intros E. rewrite <- (wrap64_add_r a x), E, wrap64_add_r. reflexivity.
Qed.

Lemma wrap64_range (a : Z) : in_range (wrap64 a).
Proof.
  unfold in_range, wrap64.
  pose proof (Z.mod_pos_bound (a + 2 ^ 63) (2 ^ 64) ltac:(lia)). lia.
Qed.

(** Within the int64 range nothing wraps. *)
Lemma wrap64_small (a : Z) : in_range a -> wrap64 a = a.
Proof.
  unfold in_range, wrap64. intros R.
  rewrite Z.mod_small by lia. lia.
Qed.

Lemma fold_add64 (l : list Z) (a : Z) :
  fold_left add64 l (wrap64 a) = wrap64 (a + zsum l).
Proof.
  revert a. induction l as [|x l IH]; intros a; simpl.
  - f_equal. lia.
  - unfold add64 at 2. rewrite wrap64_add_l, IH. f_equal. lia.
Qed.

Lemma sum64_zsum (l : list Z) : sum64 l = wrap64 (zsum l).
Proof. unfold sum64. apply (fold_add64 l 0). Qed.

Lemma sum64_snoc (l : list Z) (x : Z) :
  sum64 (l ++ [x]) = add64 (sum64 l) x.
Proof. unfold sum64. rewrite fold_left_app. reflexivity. Qed.

Lemma zsum_app (l m : list Z) : zsum (l ++ m) = zsum l + zsum m.
Proof. induction l; simpl; lia. Qed.

Lemma zsum_perm (l m : list Z) : Permutation l m -> zsum l = zsum m.
Proof. induction 1; simpl; lia. Qed.

Lemma sum64_perm (l m : list Z) : Permutation l m -> sum64 l = sum64 m.
Proof. intros P. rewrite !sum64_zsum, (zsum_perm _ _ P). reflexivity. Qed.

(** A column sum is the mathematical sum whenever that fits in int64. *)
Lemma sum64_exact (l : list Z) : in_range (zsum l) -> sum64 l = zsum l.
Proof. intros R. rewrite sum64_zsum. apply wrap64_small, R. Qed.

End Int64Facts.

(* ================================================================== *)
(** * Facts about grouping *)

Section GroupFacts.
Context {K : Type} `{KeyLaws K}.

Lemma keqb_refl (k : K) : keqb k k = true.
Proof. apply keqb_eq. reflexivity. Qed.

Lemma keqb_neq (a b : K) : keqb a b = false <-> a <> b.
Proof.
  rewrite <- keqb_eq. destruct (keqb a b); split; congruence.
Qed.

Lemma keqb_sym (a b : K) : keqb a b = keqb b a.
Proof.
  destruct (keqb a b) eqn:E.
  - apply keqb_eq in E. subst. symmetry. apply keqb_refl.
  - symmetry. apply keqb_neq. apply keqb_neq in E. congruence.
Qed.


Lemma find_group_key (k : K) (l : list (group K)) (g : group K) :
  find_group k l = Some g -> gkey g = k /\ In g l.
Proof.
  induction l as [|h l IH]; simpl; [discriminate|].
  destruct (keqb k (gkey h)) eqn:E.
  - intros [= <-]. apply keqb_eq in E. auto.
  - intros F. destruct (IH F). auto.
Qed.

Lemma find_group_none (k : K) (l : list (group K)) :
  find_group k l = None <-> ~ In k (map gkey l).
Proof.
  induction l as [|h l IH]; simpl.
  - tauto.
  - destruct (keqb k (gkey h)) eqn:E.
    + apply keqb_eq in E. split; [discriminate | intros N; exfalso; auto].
    + apply keqb_neq in E. rewrite IH. split.
      * intros N [E' | I]; [congruence | tauto].
      * tauto.
Qed.

Lemma find_group_in (l : list (group K)) (g : group K) :
  NoDup (map gkey l) -> In g l -> find_group (gkey g) l = Some g.
Proof.
  induction l as [|h l IH]; simpl; [tauto|].
  intros ND [-> | I].
  - rewrite keqb_refl. reflexivity.
  - inversion ND as [|? ? NI ND']; subst.
    destruct (keqb (gkey g) (gkey h)) eqn:E.
    + apply keqb_eq in E. exfalso. apply NI. rewrite <- E.
      apply in_map, I.
    + auto.
Qed.

Lemma find_group_add (k k' : K) (t c : Z) (acc : list (group K)) :
  find_group k (group_add k' t c acc)
  = if keqb k k' then Some (bump (find_group k' acc) k' t c)
    else find_group k acc.
Proof.
  induction acc as [|g acc IH]; simpl.
  - reflexivity.
  - destruct (keqb k' (gkey g)) eqn:E'; simpl.
    + apply keqb_eq in E'. subst k'. destruct (keqb k (gkey g)); reflexivity.
    + rewrite IH. destruct (keqb k (gkey g)) eqn:E.
      * apply keqb_eq in E. subst k.
        rewrite keqb_sym, E'. reflexivity.
      * reflexivity.
Qed.

Lemma group_add_keys (k : K) (t c : Z) (acc : list (group K)) :
  map gkey (group_add k t c acc)
  = if existsb (keqb k) (map gkey acc) then map gkey acc
    else map gkey acc ++ [k].
Proof.
  induction acc as [|g acc IH]; simpl.
  - reflexivity.
  - destruct (keqb k (gkey g)) eqn:E; simpl.
    + reflexivity.
    + rewrite IH. destruct (existsb (keqb k) (map gkey acc)); reflexivity.
Qed.

Lemma existsb_keqb (k : K) (l : list K) :
  existsb (keqb k) l = true <-> In k l.
Proof.
  rewrite existsb_exists. split.
  - intros (x & I & E). apply keqb_eq in E. subst. exact I.
  - intros I. exists k. split; [exact I | apply keqb_refl].
Qed.

Lemma group_add_nodup (k : K) (t c : Z) (acc : list (group K)) :
  NoDup (map gkey acc) -> NoDup (map gkey (group_add k t c acc)).
Proof.
  intros ND. rewrite group_add_keys.
  destruct (existsb (keqb k) (map gkey acc)) eqn:E; [exact ND|].
  apply NoDup_app; [exact ND | repeat constructor; simpl; tauto |].
  intros x I [<- | []].
  apply existsb_keqb in I. congruence.
Qed.

Lemma group_add_sum (k : K) (t c : Z) (acc : list (group K)) :
  wrap64 (zsum (map gtraffic (group_add k t c acc)))
  = wrap64 (zsum (map gtraffic acc) + t)
  /\ wrap64 (zsum (map gcookies (group_add k t c acc)))
     = wrap64 (zsum (map gcookies acc) + c).
Proof.
  induction acc as [|g acc [IHt IHc]]; simpl.
  - unfold add64. split; rewrite wrap64_add_l; f_equal; lia.
  - destruct (keqb k (gkey g)); simpl.
    + unfold add64. split; rewrite wrap64_add_l; f_equal; lia.
    + rewrite (wrap64_add_congr _ _ _ IHt), (wrap64_add_congr _ _ _ IHc).
      split; f_equal; lia.
Qed.

Variable key : row -> K.

Lemma groups_snoc (df : DataFrame) (r : row) :
  groups key (df ++ [r])
  = group_add (key r) (traffic r) (cookies_supported r) (groups key df).
Proof. unfold groups. rewrite fold_left_app. reflexivity. Qed.


Lemma members_snoc (k : K) (df : DataFrame) (r : row) :
  members key k (df ++ [r])
  = if keqb (key r) k then members key k df ++ [r] else members key k df.
Proof.
  unfold members. rewrite filter_app. simpl.
  destruct (keqb (key r) k); [reflexivity | apply app_nil_r].
Qed.

Lemma members_nil_iff (k : K) (df : DataFrame) :
  members key k df = [] <-> ~ exists r, In r df /\ key r = k.
Proof.
  unfold members. split.
  - intros E (r & I & Ek).
    assert (I' : In r (filter (fun r => keqb (key r) k) df)).
    { apply filter_In. split; [exact I | apply keqb_eq, Ek]. }
    rewrite E in I'. exact I'.
  - intros N. destruct (filter _ df) as [|r l] eqn:E; [reflexivity|].
    exfalso. apply N. exists r.
    assert (I : In r (filter (fun r => keqb (key r) k) df))
      by (rewrite E; left; reflexivity).
    apply filter_In in I. destruct I as [I Ek].
    apply keqb_eq in Ek. auto.
Qed.


(** What the accumulation holds for a key: nothing if no row carries the
    key, otherwise the int64 sums over the rows that do. *)
Lemma find_group_groups (k : K) (df : DataFrame) :
  find_group k (groups key df)
  = match members key k df with
    | [] => None
    | _ => Some (group_of key k df)
    end.
Proof.
  induction df as [|r df IH] using rev_ind.
  - reflexivity.
  - rewrite groups_snoc, find_group_add, members_snoc.
    rewrite (keqb_sym k (key r)).
    destruct (keqb (key r) k) eqn:E.
    + apply keqb_eq in E. subst k. rewrite IH.
      unfold group_of. rewrite members_snoc, keqb_refl.
      rewrite !map_app. cbn [map]. rewrite !sum64_snoc.
      destruct (members key (key r) df) as [|r0 l0] eqn:M; simpl.
      * reflexivity.
      * reflexivity.
    + rewrite IH. unfold group_of. rewrite members_snoc, E. reflexivity.
Qed.

Lemma groups_nodup (df : DataFrame) : NoDup (map gkey (groups key df)).
Proof.
  induction df as [|r df IH] using rev_ind.
  - constructor.
  - rewrite groups_snoc. apply group_add_nodup, IH.
Qed.

Lemma groups_sum (df : DataFrame) :
  sum64 (map gtraffic (groups key df)) = sum64 (map traffic df)
  /\ sum64 (map gcookies (groups key df))
     = sum64 (map cookies_supported df).
Proof.
  rewrite !sum64_zsum.
  induction df as [|r df [IHt IHc]] using rev_ind.
  - split; reflexivity.
  - rewrite groups_snoc.
    destruct (group_add_sum (key r) (traffic r) (cookies_supported r)
                (groups key df)) as [Et Ec].
    rewrite Et, Ec, !map_app, !zsum_app. simpl.
    rewrite !Z.add_0_r.
    rewrite (Z.add_comm (zsum (map gtraffic _))),
            (Z.add_comm (zsum (map gcookies _))),
            (Z.add_comm (zsum (map traffic _))),
            (Z.add_comm (zsum (map cookies_supported _))).
    split; apply wrap64_add_congr; assumption.
Qed.

Lemma insert_by_key_perm (g : group K) (l : list (group K)) :
  Permutation (insert_by_key g l) (g :: l).
Proof.
  induction l as [|h l IH]; simpl.
  - apply Permutation_refl.
  - destruct (kltb (gkey g) (gkey h)).
    + apply Permutation_refl.
    + eapply Permutation_trans; [apply perm_skip, IH | apply perm_swap].
Qed.

Lemma sort_by_key_perm (l : list (group K)) :
  Permutation (sort_by_key l) l.
Proof.
  induction l as [|h l IH]; simpl.
  - apply Permutation_refl.
  - eapply Permutation_trans; [apply insert_by_key_perm|].
    apply perm_skip, IH.
Qed.

Lemma groupby_sum_perm (df : DataFrame) :
  Permutation (groupby_sum key df) (groups key df).
Proof. apply sort_by_key_perm. Qed.

Lemma groupby_sum_nodup (df : DataFrame) :
  NoDup (map gkey (groupby_sum key df)).
Proof.
  eapply Permutation_NoDup; [| apply groups_nodup].
  apply Permutation_map, Permutation_sym, groupby_sum_perm.
Qed.

(** The groups of [groupby(key).sum()] are exactly the keys carried by
    some row, each with the int64 sums over its rows. *)
Lemma groupby_sum_in (df : DataFrame) (g : group K) :
  In g (groupby_sum key df)
  <-> (exists r, In r df /\ key r = gkey g) /\ g = group_of key (gkey g) df.
Proof.
  assert (P : In g (groupby_sum key df) <-> In g (groups key df)).
  { split; apply Permutation_in;
      [| apply Permutation_sym]; apply groupby_sum_perm. }
  rewrite P. clear P. split.
  - intros I.
    pose proof (find_group_in _ _ (groups_nodup df) I) as F.
    rewrite find_group_groups in F.
    destruct (members key (gkey g) df) eqn:M; [discriminate|].
    injection F as F. split; [| symmetry; exact F].
    assert (I' : In r (members key (gkey g) df)) by (rewrite M; left; reflexivity).
    apply filter_In in I'. destruct I' as [I' E]. apply keqb_eq in E.
    exists r. auto.
  - intros [E G].
    assert (F : find_group (gkey g) (groups key df) = Some g).
    { rewrite find_group_groups.
      destruct (members key (gkey g) df) eqn:M.
      - apply members_nil_iff in M. contradiction.
      - rewrite G at 2. reflexivity. }
    apply find_group_key in F. tauto.
Qed.

End GroupFacts.

(* ================================================================== *)
(** * Facts about the float model *)

Section FloatFacts.


Lemma of_int_Zq (z : Z) : of_int z = Fin (Zq z).
Proof. reflexivity. Qed.

Lemma Zq_add (a b : Z) : Zq (a + b) = (Zq a + Zq b)%Qc.
Proof.
  apply Qc_is_canon. unfold Zq, Qcplus, Q2Qc. cbn [this].
  rewrite !Qred_correct, inject_Z_plus. reflexivity.
Qed.

Lemma Zq_mul (a b : Z) : Zq (a * b) = (Zq a * Zq b)%Qc.
Proof.
  apply Qc_is_canon. unfold Zq, Qcmult, Q2Qc. cbn [this].
  rewrite !Qred_correct, inject_Z_mult. reflexivity.
Qed.

Lemma sgn_Zq (z : Z) : sgn (Zq z) = (z ?= 0)%Z.
Proof.
  unfold sgn, Zq, Qccompare, Q2Qc. cbn [this].
  rewrite <- Qred_compare. unfold Qcompare; simpl.
  rewrite Z.mul_1_r. reflexivity.
Qed.

Lemma Zq_inj (a b : Z) : Zq a = Zq b -> a = b.
Proof.
  intros E. apply Q2Qc_eq_iff in E.
  apply (proj1 (inject_Z_injective a b)), E.
Qed.

Lemma Zq_neq0 (z : Z) : z <> 0 -> Zq z <> Zq 0.
Proof. intros N E. apply N, Zq_inj, E. Qed.

Lemma sgn_Eq (q : Qc) : sgn q = Eq <-> q = 0%Qc.
Proof. unfold sgn. symmetry. apply Qceq_alt. Qed.

Lemma sgn_0 : sgn 0%Qc = Eq.
Proof. reflexivity. Qed.

(** The percentage of a row with non-zero traffic is the exact ratio. *)
Lemma pct_nonzero (c t : Z) :
  t <> 0 -> pct c t = Fin (Zq (100 * c) / Zq t)%Qc.
Proof.
  intros N. unfold pct. rewrite !of_int_Zq. cbn [fdiv fmul].
  rewrite sgn_Zq.
  assert (Q : Zq t <> 0%Qc) by (apply (Zq_neq0 t N)).
  destruct (t ?= 0)%Z eqn:C.
  - apply Z.compare_eq in C. contradiction.
  - cbn [fmul]. f_equal. rewrite Zq_mul. field. exact Q.
  - cbn [fmul]. f_equal. rewrite Zq_mul. field. exact Q.
Qed.

(** With zero traffic the percentage is NaN or an infinity. *)
Lemma pct_zero (c : Z) :
  pct c 0 = match (c ?= 0)%Z with Eq => NaN | Gt => PInf | Lt => NInf end.
Proof.
  unfold pct. rewrite !of_int_Zq.
  change (Zq 0) with 0%Qc. cbn [fdiv]. rewrite sgn_0, sgn_Zq.
  destruct (c ?= 0)%Z; reflexivity.
Qed.

End FloatFacts.



(* ================================================================== *)
(** * The daily series *)


Lemma with_pct_in {K : Type} (l : list (group K)) (e : agg K) :
  In e (with_pct l)
  <-> In (mk_group (akey e) (atraffic e) (acookies e)) l
      /\ cookie_support_pct e = pct (acookies e) (atraffic e).
Proof.
  unfold with_pct. rewrite in_map_iff. split.
  - intros ([k t c] & <- & I). simpl. auto.
  - intros [I E]. exists (mk_group (akey e) (atraffic e) (acookies e)).
    split; [| exact I]. destruct e; simpl in *. congruence.
Qed.

Lemma with_pct_keys {K : Type} (l : list (group K)) :
  map akey (with_pct l) = map gkey l.
Proof. unfold with_pct. rewrite map_map. reflexivity. Qed.

Lemma with_pct_traffic {K : Type} (l : list (group K)) :
  map atraffic (with_pct l) = map gtraffic l.
Proof. unfold with_pct. rewrite map_map. reflexivity. Qed.

(** C8. The by-date aggregation has one entry per distinct date of the
    input; the entry's traffic and cookies_supported are the (int64) column
    sums over the rows of that date, and its cookie_support_pct is
    (cookies_supported / traffic) * 100, which is the exact ratio
    100 * cookies_supported / traffic when the traffic is not 0.  On the
    two-row example the entry for 2021-01-01 is traffic 150,
    cookies_supported 70, cookie_support_pct 140/3 = 46.666... *)
Theorem by_day_daily_series (df : DataFrame) :
  NoDup (map akey (by_day df))
  /\ (forall d, In d (map akey (by_day df)) <-> exists r, In r df /\ date r = d)
  /\ (forall e, In e (by_day df) ->
      let rows := filter (fun r => date r =? akey e) df in
      atraffic e = sum64 (map traffic rows)
      /\ acookies e = sum64 (map cookies_supported rows)
      /\ cookie_support_pct e
         = fmul (fdiv (of_int (acookies e)) (of_int (atraffic e))) (of_int 100)
      /\ (atraffic e <> 0 ->
          cookie_support_pct e
          = Fin (Zq (100 * acookies e) / Zq (atraffic e))%Qc))
  /\ by_day example_dataset
     = [mk_agg (to_datetime 2021 1 1) 150 70 (Fin (Q2Qc (140 # 3)))].
Proof.
  unfold by_day. split; [| split; [| split]].
  - rewrite with_pct_keys. apply groupby_sum_nodup.
  - intros d. rewrite with_pct_keys, in_map_iff. split.
    + intros (g & <- & I). apply groupby_sum_in in I. tauto.
    + intros (r & I & <-).
      exists (group_of date (date r) df). split; [reflexivity|].
      apply groupby_sum_in. split; [| reflexivity]. exists r. auto.
  - intros e I. apply with_pct_in in I. destruct I as [I E].
    apply groupby_sum_in in I. destruct I as [_ G]. simpl in G.
    injection G as Et Ec.
    split; [exact Et|]. split; [exact Ec|]. split; [exact E|].
    intros N. rewrite E. apply pct_nonzero, N.
  - vm_compute. float_eq.
Qed.
(* ================================================================== *)
(** * Conservation of traffic under aggregation *)

Lemma groupby_sum_conserves {K : Type} `{Key K} (key : row -> K)
  (df : DataFrame) :
  sum64 (map gtraffic (groupby_sum key df)) = sum64 (map traffic df).
Proof.
  rewrite <- (proj1 (groups_sum key df)).
  apply sum64_perm, Permutation_map, groupby_sum_perm.
Qed.



(** C4, as stated, fails for the device groupings: a Dataset with a single
    row of device type "other" has total traffic 10, while the per-device
    totals (and the device pivot) have no group at all. *)
Lemma device_totals_drop_other_devices :
  sum64 (map atraffic (total_by_device other_device_dataset))
  <> sum64 (map traffic other_device_dataset)
  /\ sum64 (map gtraffic
       (pivot_groups (known_devices other_device_dataset) device_type))
     <> sum64 (map traffic other_device_dataset).
Proof. split; vm_compute; discriminate. Qed.

(** C4 (amended). Each grouping conserves the traffic of the table it
    groups: by date and by (date, browser_name) that is the whole Dataset;
    by (date, device_type) and by device_type it is the Dataset restricted
    to the device types desktop, mobile and tablet.  Sums are int64 column
    sums. *)
Theorem aggregation_conserves_traffic (df : DataFrame) :
  sum64 (map atraffic (by_day df)) = sum64 (map traffic df)
  /\ sum64 (map gtraffic (pivot_groups df browser_name))
     = sum64 (map traffic df)
  /\ sum64 (map gtraffic (pivot_groups (known_devices df) device_type))
     = sum64 (map traffic (known_devices df))
  /\ sum64 (map atraffic (total_by_device df))
     = sum64 (map traffic (known_devices df)).
Proof.
  unfold by_day, total_by_device, pivot_groups.
  rewrite !with_pct_traffic.
  repeat split; apply groupby_sum_conserves.
Qed.

(* ================================================================== *)
(** * Percentages of groups without traffic *)


(** C2, as stated, fails: a group with traffic 0 and cookies_supported 5
    gets the percentage +inf, which is not NaN. *)
Lemma zero_traffic_pct_not_nan :
  ~ (forall e, In e (by_day zero_traffic_dataset) ->
       atraffic e = 0 -> is_nan (cookie_support_pct e) = true).
Proof.
  intros A.
  specialize (A (mk_agg (to_datetime 2021 1 1) 0 5 PInf)).
  simpl in A. discriminate A; auto.
Qed.

(** C2 (amended). For every group of the daily series or of the
    slice-and-dice series whose summed traffic is 0, the percentage is NaN
    when the summed cookies_supported is 0 as well, +inf when it is
    positive and -inf when it is negative; it is never a finite number, in
    particular never 0.  (The computation is a total function: nothing is
    raised.) *)
Theorem zero_traffic_pct (df : DataFrame) (device browser : option string)
  (e : agg Timestamp) :
  In e (by_day df) \/ In e (slice_dice_df df device browser) ->
  atraffic e = 0 ->
  cookie_support_pct e
  = match (acookies e ?= 0)%Z with Eq => NaN | Gt => PInf | Lt => NInf end
  /\ is_finite (cookie_support_pct e) = false
  /\ cookie_support_pct e <> of_int 0.
Proof.
  intros I T.
  assert (E : cookie_support_pct e = pct (acookies e) (atraffic e)).
  { destruct I as [I | I]; apply with_pct_in in I; tauto. }
  rewrite E, T, pct_zero.
  destruct (acookies e ?= 0)%Z; repeat split; discriminate.
Qed.

Lemma zero_traffic_pct_witness :
  In (mk_agg (to_datetime 2021 1 1) 0 5 PInf) (by_day zero_traffic_dataset)
  /\ cookie_support_pct (mk_agg (to_datetime 2021 1 1) 0 5 PInf) = PInf.
Proof.
  assert (I : In (mk_agg (to_datetime 2021 1 1) 0 5 PInf)
                 (by_day zero_traffic_dataset)) by (left; reflexivity).
  split; [exact I|].
  exact (proj1 (zero_traffic_pct zero_traffic_dataset None None _
                  (or_introl I) eq_refl)).
Defined.

(* ================================================================== *)
(** * Filters that match nothing *)

Lemma groupby_sum_nil {K : Type} `{Key K} (key : row -> K) :
  groupby_sum key [] = [].
Proof. reflexivity. Qed.

(** C3. When the device and browser filters leave no row of the
    pre-restricted Dataset, the by-date aggregation with its percentage
    column still yields a series, the empty one; it is the trend estimator
    called on it afterwards that fails, with the error of empty inputs. *)
Theorem slice_dice_empty (df : DataFrame) (device browser : option string) :
  filter_df_by_options (filtered_df df) device browser = [] ->
  slice_dice_df df device browser = []
  /\ best_fit_slice_dice df device browser
     = Raise (ValueError "Inputs must not be empty.").
Proof.
  intros E. unfold best_fit_slice_dice, slice_dice_df. rewrite E.
  split; reflexivity.
Qed.

Lemma slice_dice_empty_witness :
  slice_dice_df chrome_safari_dataset (Some "mobile"%string)
    (Some "Safari"%string) = []
  /\ best_fit_slice_dice chrome_safari_dataset (Some "mobile"%string)
       (Some "Safari"%string)
     = Raise (ValueError "Inputs must not be empty.").
Proof.
  apply (slice_dice_empty chrome_safari_dataset). reflexivity.
Defined.
(* ================================================================== *)
(** * Facts about pivot tables *)

Section KeyListFacts.
Context {K : Type} `{KeyLaws K}.

Lemma unique_in (k : K) (l : list K) : In k (unique l) <-> In k l.
Proof.
  induction l as [|h l IH]; simpl; [tauto|].
  rewrite filter_In, IH, negb_true_iff, keqb_neq.
  destruct (keqb k h) eqn:E.
  - apply keqb_eq in E. subst. tauto.
  - apply keqb_neq in E. split; [tauto|].
    intros [-> | I]; auto.
Qed.

Lemma unique_nodup (l : list K) : NoDup (unique l).
Proof.
  induction l as [|h l IH]; simpl; constructor.
  - rewrite filter_In, negb_true_iff, keqb_neq. tauto.
  - apply NoDup_filter, IH.
Qed.

Lemma insert_key_perm (k : K) (l : list K) :
  Permutation (insert_key k l) (k :: l).
Proof.
  induction l as [|h l IH]; simpl.
  - apply Permutation_refl.
  - destruct (kltb k h).
    + apply Permutation_refl.
    + eapply Permutation_trans; [apply perm_skip, IH | apply perm_swap].
Qed.

Lemma sort_keys_perm (l : list K) : Permutation (sort_keys l) l.
Proof.
  induction l as [|h l IH]; simpl.
  - apply Permutation_refl.
  - eapply Permutation_trans; [apply insert_key_perm|].
    apply perm_skip, IH.
Qed.

Lemma sorted_unique_in (k : K) (l : list K) :
  In k (sort_keys (unique l)) <-> In k l.
Proof.
  split; intros I.
  - apply unique_in. eapply Permutation_in; [apply sort_keys_perm | exact I].
  - eapply Permutation_in; [apply Permutation_sym, sort_keys_perm|].
    apply unique_in, I.
Qed.

Lemma sorted_unique_nodup (l : list K) : NoDup (sort_keys (unique l)).
Proof.
  eapply Permutation_NoDup; [| apply unique_nodup].
  apply Permutation_sym, sort_keys_perm.
Qed.

Lemma find_group_perm (k : K) (l l' : list (group K)) :
  NoDup (map gkey l) -> Permutation l l' ->
  find_group k l = find_group k l'.
Proof.
  intros ND P.
  assert (ND' : NoDup (map gkey l')).
  { eapply Permutation_NoDup; [apply Permutation_map, P | exact ND]. }
  destruct (find_group k l) as [g|] eqn:F.
  - apply find_group_key in F. destruct F as [<- I].
    symmetry. apply find_group_in; [exact ND'|].
    eapply Permutation_in; eauto.
  - symmetry. apply find_group_none. apply find_group_none in F.
    intros I. apply F.
    eapply Permutation_in; [apply Permutation_map, Permutation_sym, P|].
    exact I.
Qed.

(** Looking a key up in the result of [groupby(key).sum()]. *)
Lemma find_group_groupby_sum (key : row -> K) (k : K) (df : DataFrame) :
  find_group k (groupby_sum key df)
  = match members key k df with
    | [] => None
    | _ => Some (group_of key k df)
    end.
Proof.
  rewrite <- find_group_groups. symmetry.
  apply find_group_perm; [apply groups_nodup|].
  apply Permutation_sym, groupby_sum_perm.
Qed.

End KeyListFacts.

Section FrameFacts.

Lemma forallb_map_eq {A B : Type} (f : A -> B) (p : B -> bool)
  (l : list A) :
  forallb p (map f l) = forallb (fun x => p (f x)) l.
Proof. induction l; simpl; congruence. Qed.

Lemma forallb_ext_eq {A : Type} (p q : A -> bool) (l : list A) :
  (forall x, p x = q x) -> forallb p l = forallb q l.
Proof. intros E. induction l; simpl; congruence. Qed.

Lemma lookup_set_column (n n' : string) (s : Series)
  (cols : list (string * Series)) :
  lookup n (set_column n' s cols)
  = if String.eqb n n' then Some s else lookup n cols.
Proof.
  induction cols as [|[m s0] cols IH]; simpl.
  - reflexivity.
  - destruct (String.eqb n' m) eqn:E'; simpl.
    + apply String.eqb_eq in E'. subst m.
      destruct (String.eqb n n'); reflexivity.
    + rewrite IH. destruct (String.eqb n m) eqn:E.
      * apply String.eqb_eq in E. subst m.
        rewrite String.eqb_sym, E'. reflexivity.
      * reflexivity.
Qed.

Lemma lookup_map (n : string) (f : string -> Series) (names : list string) :
  lookup n (map (fun c => (c, f c)) names)
  = if existsb (String.eqb n) names then Some (f n) else None.
Proof.
  induction names as [|m names IH]; simpl.
  - reflexivity.
  - destruct (String.eqb n m) eqn:E; simpl.
    + apply String.eqb_eq in E. subst. reflexivity.
    + exact IH.
Qed.

Lemma position_in (d : Timestamp) (idx : list Timestamp) :
  In d idx -> exists i, position d idx = Some i /\ nth_error idx i = Some d.
Proof.
  induction idx as [|h idx IH]; simpl; [tauto|].
  intros I. destruct (Z.eqb d h) eqn:E.
  - apply Z.eqb_eq in E. subst. exists O. auto.
  - apply Z.eqb_neq in E. destruct I as [-> | I]; [congruence|].
    destruct (IH I) as (i & P & N). exists (S i). rewrite P. auto.
Qed.

Variable df : DataFrame.
Variable col : row -> string.



Lemma cell_spec (d : Timestamp) (c : string) :
  option_map gtraffic (find_group (d, c) (pivot_groups df col)) = cell df col d c.
Proof.
  unfold pivot_groups. rewrite find_group_groupby_sum.
  assert (M : members (fun r => (date r, col r)) (d, c) df = cell_rows df col d c)
    by reflexivity.
  unfold group_of. rewrite M. unfold cell.
  destruct (cell_rows df col d c); reflexivity.
Qed.

Lemma cell_some_iff (d : Timestamp) (c : string) :
  cell df col d c <> None <-> exists r, In r df /\ date r = d /\ col r = c.
Proof.
  unfold cell. split.
  - destruct (cell_rows df col d c) as [|r l] eqn:E; [congruence|]. intros _.
    assert (I : In r (cell_rows df col d c)) by (rewrite E; left; reflexivity).
    apply filter_In in I. destruct I as [I B].
    apply andb_true_iff in B. destruct B as [B1 B2].
    apply Z.eqb_eq in B1. apply String.eqb_eq in B2. eauto.
  - intros (r & I & <- & <-).
    assert (I' : In r (cell_rows df col (date r) (col r))).
    { apply filter_In. split; [exact I|].
      rewrite Z.eqb_refl, String.eqb_refl. reflexivity. }
    destruct (cell_rows df col (date r) (col r)); [destruct I' | discriminate].
Qed.



Lemma pidx_in (d : Timestamp) :
  In d (pidx df col) <-> exists r, In r df /\ date r = d.
Proof.
  unfold pidx. rewrite sorted_unique_in, in_map_iff. split.
  - intros (g & <- & I). apply groupby_sum_in in I.
    destruct I as [(r & I & E) _]. exists r. rewrite <- E. auto.
  - intros (r & I & <-).
    exists (group_of (fun r => (date r, col r)) (date r, col r) df).
    split; [reflexivity|]. apply groupby_sum_in. split; [| reflexivity].
    exists r. auto.
Qed.

Lemma pnames_in (c : string) :
  In c (pnames df col) <-> exists r, In r df /\ col r = c.
Proof.
  unfold pnames. rewrite sorted_unique_in, in_map_iff. split.
  - intros (g & <- & I). apply groupby_sum_in in I.
    destruct I as [(r & I & E) _]. exists r. rewrite <- E. auto.
  - intros (r & I & <-).
    exists (group_of (fun r => (date r, col r)) (date r, col r) df).
    split; [reflexivity|]. apply groupby_sum_in. split; [| reflexivity].
    exists r. auto.
Qed.



(** The pivot table in terms of its cells. *)
Lemma pivot_table_cells :
  pivot_table df col
  = mk_frame (pidx df col) (map (fun c => (c, pcolumn df col c)) (pnames df col)).
Proof.
  unfold pivot_table. fold (pidx df col); fold (pnames df col).
  assert (R :
    map (fun c => (c, map (fun d =>
           option_map gtraffic
             (find_group (d, c) (pivot_groups df col))) (pidx df col))) (pnames df col)
    = map (fun c => (c, map (fun d => cell df col d c) (pidx df col))) (pnames df col)).
  { apply map_ext. intros c. f_equal.
    apply map_ext. intros d. apply cell_spec. }
  rewrite R. f_equal. rewrite map_map. cbn [fst snd].
  rewrite forallb_map_eq. cbn [snd].
  unfold pcolumn, all_present.
  rewrite (forallb_ext_eq
             (fun x => forallb is_some (map (fun d => cell df col d x) (pidx df col)))
             (fun c => forallb (fun d => is_some (cell df col d c)) (pidx df col)))
    by (intros c; apply forallb_map_eq).
  reflexivity.
Qed.

End FrameFacts.
(* ================================================================== *)
(** * The browser pivot *)

Lemma existsb_eqb_in (s : string) (l : list string) :
  existsb (String.eqb s) l = true <-> In s l.
Proof. exact (existsb_keqb (K := string) s l). Qed.

Lemma pivot_lookup (df : DataFrame) (col : row -> string) (c : string) :
  lookup c (columns (pivot_table df col))
  = if existsb (String.eqb c) (pnames df col) then Some (pcolumn df col c)
    else None.
Proof. rewrite pivot_table_cells. simpl. apply lookup_map. Qed.

Lemma pivot_has_column (df : DataFrame) (col : row -> string) (c : string) :
  existsb (String.eqb c) (pnames df col) = true
  <-> exists r, In r df /\ col r = c.
Proof. rewrite existsb_eqb_in. apply pnames_in. Qed.


(** C9. The browser pivot with its chrome_pct column is computed exactly
    when some row of the Dataset has browser_name "Chrome": on a Dataset
    without such a row the access to the column Chrome raises
    AttributeError; with such a row nothing is raised. *)
Theorem by_browser_needs_chrome (df : DataFrame) :
  ((forall r, In r df -> browser_name r <> "Chrome"%string) ->
   by_browser df = Raise (AttributeError "Chrome"))
  /\ ((exists r, In r df /\ browser_name r = "Chrome"%string) ->
      raises (by_browser df) = false)
  /\ by_browser firefox_dataset = Raise (AttributeError "Chrome").
Proof.
  assert (G : if existsb (String.eqb "Chrome") (pnames df browser_name)
              then raises (by_browser df) = false
              else by_browser df = Raise (AttributeError "Chrome")).
  { unfold by_browser, getattr, setitem. cbn [columns].
    rewrite !lookup_set_column.
    change (String.eqb "Chrome" "total") with false.
    change (String.eqb "total" "total") with true. cbv iota.
    rewrite pivot_lookup.
    destruct (existsb (String.eqb "Chrome") (pnames df browser_name));
      reflexivity. }
  destruct (existsb (String.eqb "Chrome") (pnames df browser_name)) eqn:E.
  - apply pivot_has_column in E. destruct E as (r & I & E).
    split; [| split].
    + intros N. exfalso. exact (N r I E).
    + intros _. exact G.
    + reflexivity.
  - split; [| split].
    + intros _. exact G.
    + intros (r & I & Er).
      assert (T : existsb (String.eqb "Chrome") (pnames df browser_name)
                  = true) by (apply pivot_has_column; eauto).
      congruence.
    + reflexivity.
Qed.
(* ================================================================== *)
(** * The device pivot *)

Section ColumnFacts.


Lemma cell_float_cases (o : option Z) :
  (o = None /\ cell_float o = NaN)
  \/ (exists z, o = Some z /\ cell_float o = Fin (Zq z)).
Proof. destruct o as [z|]; [right; exists z | left]; auto. Qed.

Lemma nth_error_seq (s n i : nat) :
  (i < n)%nat -> nth_error (seq s n) i = Some (s + i)%nat.
Proof.
  intros L.
  rewrite (nth_error_nth' (seq s n) O) by (rewrite length_seq; exact L).
  rewrite seq_nth by exact L. reflexivity.
Qed.

Lemma map2_nth_error {A B C : Type} (f : A -> B -> C) (l : list A)
  (m : list B) (i : nat) :
  nth_error (map2 f l m) i
  = match nth_error l i, nth_error m i with
    | Some a, Some b => Some (f a b)
    | _, _ => None
    end.
Proof.
  unfold map2. revert m i.
  induction l as [|a l IH]; intros m i; simpl.
  - destruct i; reflexivity.
  - destruct m as [|b m]; simpl.
    + destruct i; simpl; [reflexivity|]. destruct (nth_error l i); reflexivity.
    + destruct i; simpl; [reflexivity | apply IH].
Qed.

Lemma fsum_fin_acc (l : list float64) (a : Qc) :
  (forall x, In x l -> is_finite x = true) ->
  is_finite (fold_left fadd l (Fin a)) = true.
Proof.
  revert a. induction l as [|x l IH]; intros a F; simpl.
  - reflexivity.
  - destruct x as [q| | |] eqn:E;
      try (specialize (F x (or_introl (eq_sym E))); subst; discriminate).
    apply IH. intros y I. apply F. right. exact I.
Qed.

(** Skipping the NaN cells, a row of converted integers has a finite sum. *)
Lemma nansum_finite (l : list float64) :
  (forall x, In x l -> is_nan x = true \/ is_finite x = true) ->
  is_finite (nansum l) = true.
Proof.
  intros F. unfold nansum, fsum. apply fsum_fin_acc.
  intros x I. apply filter_In in I. destruct I as [I N].
  destruct (F x I) as [E | E]; [| exact E].
  rewrite E in N. discriminate.
Qed.


Lemma ratio_pct_nan (whole : float64) : ratio_pct NaN whole = NaN.
Proof. reflexivity. Qed.

Lemma sgn_100 : sgn (Zq 100) = Gt.
Proof. reflexivity. Qed.

Lemma ratio_pct_fin (a b : Qc) :
  is_nan (ratio_pct (Fin a) (Fin b)) = true
  <-> Fin a = of_int 0 /\ Fin b = of_int 0.
Proof.
  unfold ratio_pct. rewrite !of_int_Zq. change (Zq 0) with 0%Qc.
  cbn [fdiv].
  destruct (sgn b) eqn:Sb.
  - apply sgn_Eq in Sb. subst b.
    destruct (sgn a) eqn:Sa.
    + apply sgn_Eq in Sa. subst a. simpl. tauto.
    + cbn [fmul]. rewrite sgn_100. simpl. split; [discriminate|].
      intros [E _]. injection E as E. subst a. discriminate Sa.
    + cbn [fmul]. rewrite sgn_100. simpl. split; [discriminate|].
      intros [E _]. injection E as E. subst a. discriminate Sa.
  - simpl. split; [discriminate|].
    intros [_ E]. injection E as E. subst b. discriminate Sb.
  - simpl. split; [discriminate|].
    intros [_ E]. injection E as E. subst b. discriminate Sb.
Qed.

End ColumnFacts.
Section PivotValues.
Variable df : DataFrame.
Variable col : row -> string.


Lemma all_present_cell (d : Timestamp) (c : string) :
  all_present df col = true -> In d (pidx df col) -> In c (pnames df col) ->
  exists z, cell df col d c = Some z.
Proof.
  unfold all_present. intros A Id Ic.
  rewrite forallb_forall in A. specialize (A c Ic).
  rewrite forallb_forall in A. specialize (A d Id).
  destruct (cell df col d c) as [z|]; [eauto | discriminate].
Qed.

(** A column of the pivot at the position of a date. *)
Lemma pcolumn_at (c : string) (d : Timestamp) (i : nat) :
  In c (pnames df col) -> nth_error (pidx df col) i = Some d ->
  nth_error (to_floats (pcolumn df col c)) i
  = Some (cell_float (cell df col d c)).
Proof.
  intros Ic N. unfold pcolumn, unstack_column.
  destruct (all_present df col) eqn:A; cbn [to_floats].
  - rewrite !nth_error_map, N. simpl.
    destruct (all_present_cell d c A (nth_error_In _ _ N) Ic) as [z ->].
    reflexivity.
  - rewrite !nth_error_map, N. reflexivity.
Qed.

Lemma pcolumn_is_int (c : string) :
  is_int_col (pcolumn df col c) = all_present df col.
Proof.
  unfold pcolumn, unstack_column. destruct (all_present df col); reflexivity.
Qed.

Lemma pcolumn_nth_cases (c : string) (i : nat) :
  let x := nth i (to_floats (pcolumn df col c)) NaN in
  is_nan x = true \/ is_finite x = true.
Proof.
  simpl. destruct (nth_error (to_floats (pcolumn df col c)) i) as [x|] eqn:N.
  - rewrite (nth_error_nth _ _ NaN N).
    unfold pcolumn, unstack_column in N.
    destruct (all_present df col); cbn [to_floats] in N.
    + rewrite !nth_error_map in N.
      destruct (nth_error (pidx df col) i); [| discriminate].
      injection N as <-. right. reflexivity.
    + rewrite !nth_error_map in N.
      destruct (nth_error (pidx df col) i) as [t|]; [| discriminate].
      injection N as <-. simpl. destruct (cell df col t c); auto.
  - apply nth_error_None in N. rewrite nth_overflow by exact N. auto.
Qed.

(** The row sums of the pivot are finite at every position of the
    index: missing cells are skipped. *)
Lemma sum_axis1_at (i : nat) :
  (i < length (pidx df col))%nat ->
  exists q, nth_error (to_floats (sum_axis1 (pivot_table df col))) i
            = Some (Fin q).
Proof.
  intros L. rewrite pivot_table_cells. unfold sum_axis1.
  cbn [index columns].
  destruct (map (fun c => (c, pcolumn df col c)) (pnames df col)) as [|p cols] eqn:E.
  - cbn [to_floats]. rewrite nth_error_map, nth_error_seq by exact L.
    eexists. reflexivity.
  - rewrite <- E. clear E.
    destruct (forallb _ _) eqn:F; cbn [to_floats].
    + rewrite !nth_error_map, nth_error_seq by exact L. simpl.
      eexists. reflexivity.
    + rewrite nth_error_map, nth_error_seq by exact L. simpl.
      match goal with |- exists q, Some (nansum ?l) = _ =>
        pose proof (nansum_finite l) as NF end.
      rewrite map_map in *. cbn [snd] in *.
      match type of NF with ?P -> _ => assert (A : P) end.
      { intros x I. apply in_map_iff in I. destruct I as (c & <- & _).
        apply pcolumn_nth_cases. }
      specialize (NF A).
      destruct (nansum _) as [q| | |]; try discriminate.
      exists q. reflexivity.
Qed.

End PivotValues.

Lemma known_devices_in (df : DataFrame) (r : row) :
  In r (known_devices df)
  <-> In r df /\ isin top_devices (device_type r) = true.
Proof. apply filter_In. Qed.

Lemma has_column_known (df : DataFrame) (dev : string) :
  isin top_devices dev = true ->
  (existsb (String.eqb dev) (pnames (known_devices df) device_type) = true
   <-> exists r, In r df /\ device_type r = dev).
Proof.
  intros T. rewrite pivot_has_column. split.
  - intros (r & I & E). apply known_devices_in in I. exists r. tauto.
  - intros (r & I & E). exists r. split; [| exact E].
    apply known_devices_in. rewrite E. auto.
Qed.

Lemma cell_known (df : DataFrame) (d : Timestamp) (dev : string) :
  isin top_devices dev = true ->
  (cell (known_devices df) device_type d dev <> None <-> has_rows df d dev).
Proof.
  intros T. rewrite cell_some_iff. unfold has_rows. split.
  - intros (r & I & E). apply known_devices_in in I. exists r. tauto.
  - intros (r & I & Ed & E). exists r. split; [| auto].
    apply known_devices_in. rewrite E. auto.
Qed.

(** The device pivot is computed exactly when the table has a mobile
    column and a tablet column. *)
Lemma by_device_eq (df : DataFrame) :
  by_device df
  = if existsb (String.eqb "mobile") (pnames (known_devices df) device_type)
    then if existsb (String.eqb "tablet")
              (pnames (known_devices df) device_type)
         then Ok (device_frame df)
         else Raise (AttributeError "tablet")
    else Raise (AttributeError "mobile").
Proof.
  unfold by_device, device_frame, getattr, setitem. cbn [columns index].
  fold top_devices. fold (known_devices df).
  rewrite lookup_set_column.
  change (String.eqb "mobile" "total") with false. cbv iota.
  rewrite pivot_lookup.
  destruct (existsb (String.eqb "mobile") _); [| reflexivity].
  cbn [bind]. rewrite lookup_set_column.
  change (String.eqb "tablet" "total") with false. cbv iota.
  rewrite pivot_lookup.
  destruct (existsb (String.eqb "tablet") _); [| reflexivity].
  cbn [bind]. rewrite !lookup_set_column.
  change (String.eqb "mobile_tablet" "mobile_tablet") with true.
  change (String.eqb "total" "mobile_tablet") with false.
  change (String.eqb "total" "total") with true.
  reflexivity.
Qed.

Lemma series_add_at (a b : Series) (i : nat) (ox oy : option Z) :
  nth_error (to_floats a) i = Some (cell_float ox) ->
  nth_error (to_floats b) i = Some (cell_float oy) ->
  exists z, nth_error (to_floats (series_add a b)) i = Some z
    /\ match ox, oy with
       | Some _, Some _ => is_finite z = true
       | _, _ => z = NaN
       end.
Proof.
  intros Na Nb.
  assert (G : forall x y, x = cell_float ox -> y = cell_float oy ->
            match ox, oy with
            | Some _, Some _ => is_finite (fadd x y) = true
            | _, _ => fadd x y = NaN
            end).
  { intros x y -> ->. destruct ox, oy; reflexivity. }
  destruct a as [la | la], b as [lb | lb]; cbn [series_add to_floats] in *;
    try (rewrite map2_nth_error, Na, Nb; eexists; split;
         [reflexivity | apply G; reflexivity]).
  rewrite nth_error_map in Na, Nb. rewrite nth_error_map, map2_nth_error.
  destruct (nth_error la i) as [u|]; [| discriminate].
  destruct (nth_error lb i) as [v|]; [| discriminate].
  simpl in *. eexists. split; [reflexivity|].
  destruct ox; [| discriminate]. destruct oy; [| discriminate]. reflexivity.
Qed.

Lemma ratio_at (a b : Series) (i : nat) (x y : float64) :
  nth_error (to_floats a) i = Some x ->
  nth_error (to_floats b) i = Some y ->
  nth_error (to_floats (series_mul_int (series_truediv a b) 100)) i
  = Some (ratio_pct x y).
Proof.
  intros Na Nb. unfold series_truediv, series_mul_int. cbn [to_floats].
  rewrite nth_error_map, map2_nth_error, Na, Nb. reflexivity.
Qed.

Lemma at_date_device_frame (df : DataFrame) (d : Timestamp) (i : nat) :
  position d (index (device_frame df)) = Some i ->
  at_date (device_frame df) "total" d
  = nth_error (to_floats
      (sum_axis1 (pivot_table (known_devices df) device_type))) i
  /\ at_date (device_frame df) "mobile_tablet" d
     = nth_error (to_floats
         (series_add (pcolumn (known_devices df) device_type "mobile")
                     (pcolumn (known_devices df) device_type "tablet"))) i
  /\ at_date (device_frame df) "mobile_tablet_pct" d
     = nth_error (to_floats
         (series_mul_int
            (series_truediv
               (series_add (pcolumn (known_devices df) device_type "mobile")
                           (pcolumn (known_devices df) device_type "tablet"))
               (sum_axis1 (pivot_table (known_devices df) device_type)))
            100)) i.
Proof.
  intros P. unfold at_date. rewrite P.
  unfold device_frame. cbn [columns].
  rewrite !lookup_set_column.
  change (String.eqb "total" "mobile_tablet_pct") with false.
  change (String.eqb "total" "mobile_tablet") with false.
  change (String.eqb "total" "total") with true.
  change (String.eqb "mobile_tablet" "mobile_tablet_pct") with false.
  change (String.eqb "mobile_tablet" "mobile_tablet") with true.
  change (String.eqb "mobile_tablet_pct" "mobile_tablet_pct") with true.
  cbv iota. auto.
Qed.

(** C10, as stated, fails in two places.  A date with a mobile row and a
    tablet row, all without traffic, has total 0 and mobile_tablet 0, and
    mobile_tablet_pct is NaN although both device types are present.  And
    on a Dataset with desktop rows only the pivot has no mobile column:
    the access raises AttributeError, no NaN is produced. *)
Lemma mobile_tablet_pct_undefined_with_both :
  (has_rows zero_mobile_tablet_dataset (to_datetime 2021 1 1) "mobile"
   /\ has_rows zero_mobile_tablet_dataset (to_datetime 2021 1 1) "tablet"
   /\ exists f, by_device zero_mobile_tablet_dataset = Ok f
        /\ at_date f "mobile_tablet_pct" (to_datetime 2021 1 1) = Some NaN)
  /\ by_device desktop_only_dataset = Raise (AttributeError "mobile").
Proof.
  split; [| reflexivity]. split; [| split].
  - eexists. split; [left; reflexivity | split; reflexivity].
  - eexists. split; [right; left; reflexivity | split; reflexivity].
  - eexists. split; reflexivity.
Qed.

(** C10 (amended). The device pivot is computed exactly when the Dataset
    has at least one mobile row and at least one tablet row (otherwise the
    access to the missing column raises).  When it is computed, its index
    holds the dates with a desktop, mobile or tablet row, and for every
    such date: total is a finite number; if the date lacks a mobile
    row or lacks a tablet row, mobile_tablet and mobile_tablet_pct are NaN;
    if it has both, mobile_tablet is a finite number, and
    mobile_tablet_pct is NaN exactly when mobile_tablet and total are both
    0. *)
Theorem by_device_mobile_tablet (df : DataFrame) :
  (raises (by_device df) = false
   <-> (exists r, In r df /\ device_type r = "mobile"%string)
       /\ (exists r, In r df /\ device_type r = "tablet"%string))
  /\ (forall f, by_device df = Ok f ->
      forall d, In d (index f) ->
      exists total mobile_tablet mobile_tablet_pct,
        at_date f "total" d = Some total
        /\ at_date f "mobile_tablet" d = Some mobile_tablet
        /\ at_date f "mobile_tablet_pct" d = Some mobile_tablet_pct
        /\ is_finite total = true
        /\ (~ (has_rows df d "mobile" /\ has_rows df d "tablet") ->
            mobile_tablet = NaN /\ mobile_tablet_pct = NaN)
        /\ (has_rows df d "mobile" /\ has_rows df d "tablet" ->
            is_finite mobile_tablet = true
            /\ (is_nan mobile_tablet_pct = true
                <-> mobile_tablet = of_int 0 /\ total = of_int 0)))
  /\ (forall f, by_device df = Ok f ->
      forall d, In d (index f)
                <-> exists r, In r (known_devices df) /\ date r = d).
Proof.
  pose proof (has_column_known df "mobile" eq_refl) as Hm.
  pose proof (has_column_known df "tablet" eq_refl) as Ht.
  rewrite by_device_eq.
  destruct (existsb (String.eqb "mobile") _) eqn:Em;
    [destruct (existsb (String.eqb "tablet") _) eqn:Et |].
  2: { split; [| split; discriminate]. split; [discriminate|].
       intros [_ T]. apply Ht in T. discriminate. }
  2: { split; [| split; discriminate]. split; [discriminate|].
       intros [M _]. apply Hm in M. discriminate. }
  assert (Ef : index (device_frame df) = pidx (known_devices df) device_type).
  { unfold device_frame. cbn [index]. rewrite pivot_table_cells. reflexivity. }
  split.
  { split; [| reflexivity]. intros _. split; [apply Hm | apply Ht]; reflexivity. }
  split.
  2: { intros f [= <-] d. rewrite Ef. apply pidx_in. }
  intros f [= <-] d Id.
  assert (Ix : In d (pidx (known_devices df) device_type))
    by (rewrite <- Ef; exact Id).
  destruct (position_in d _ Ix) as (i & P & N).
  rewrite <- Ef in P.
  destruct (at_date_device_frame df d i P) as (At & Am & Ap).
  rewrite At, Am, Ap. clear At Am Ap.
  assert (L : (i < length (pidx (known_devices df) device_type))%nat).
  { apply nth_error_Some. congruence. }
  destruct (sum_axis1_at (known_devices df) device_type i L) as (q & Nt).
  assert (Im : In "mobile"%string (pnames (known_devices df) device_type))
    by (apply existsb_eqb_in, Em).
  assert (It : In "tablet"%string (pnames (known_devices df) device_type))
    by (apply existsb_eqb_in, Et).
  pose proof (pcolumn_at (known_devices df) device_type _ d i Im N) as Nm.
  pose proof (pcolumn_at (known_devices df) device_type _ d i It N) as Ntb.
  destruct (series_add_at _ _ i _ _ Nm Ntb) as (z & Nz & Z).
  rewrite (ratio_at _ _ i z (Fin q) Nz Nt), Nz, Nt.
  exists (Fin q), z, (ratio_pct z (Fin q)).
  split; [reflexivity|]. split; [reflexivity|]. split; [reflexivity|].
  split; [reflexivity|]. split.
  - intros NB.
    assert (Zn : z = NaN).
    { destruct (cell (known_devices df) device_type d "mobile") eqn:Cm;
        [destruct (cell (known_devices df) device_type d "tablet") eqn:Ct |];
        try exact Z.
      exfalso. apply NB.
      split; apply cell_known; try reflexivity; congruence. }
    rewrite Zn. split; reflexivity.
  - intros [Bm Bt].
    apply (cell_known df d "mobile" eq_refl) in Bm.
    apply (cell_known df d "tablet" eq_refl) in Bt.
    destruct (cell (known_devices df) device_type d "mobile"); [| congruence].
    destruct (cell (known_devices df) device_type d "tablet"); [| congruence].
    split; [exact Z|].
    destruct z as [m| | |]; try discriminate. apply ratio_pct_fin.
Qed.

(* ================================================================== *)
(** * The top browsers *)

Section SortFacts.
Context {K : Type} `{KeyLaws K}.

Lemma insert_desc_perm (g : group K) (l : list (group K)) :
  Permutation (insert_desc g l) (g :: l).
Proof.
  induction l as [|h l IH]; simpl.
  - apply Permutation_refl.
  - destruct (gtraffic h <=? gtraffic g).
    + apply Permutation_refl.
    + eapply Permutation_trans; [apply perm_skip, IH | apply perm_swap].
Qed.

Lemma sort_values_perm (l : list (group K)) :
  Permutation (sort_values_traffic_desc l) l.
Proof.
  induction l as [|h l IH]; simpl.
  - apply Permutation_refl.
  - eapply Permutation_trans; [apply insert_desc_perm|].
    apply perm_skip, IH.
Qed.

Lemma insert_desc_sorted (g : group K) (l : list (group K)) :
  StronglySorted ge_traffic l -> StronglySorted ge_traffic (insert_desc g l).
Proof.
  induction 1 as [|h l S IH F]; simpl.
  - repeat constructor.
  - destruct (gtraffic h <=? gtraffic g) eqn:C.
    + apply Z.leb_le in C. constructor; [constructor; assumption|].
      constructor; [exact C|].
      eapply Forall_impl; [| exact F].
      intros a A. unfold ge_traffic in *. lia.
    + apply Z.leb_gt in C. constructor; [exact IH|].
      eapply Permutation_Forall;
        [apply Permutation_sym, insert_desc_perm|].
      constructor; [unfold ge_traffic; lia | exact F].
Qed.

Lemma sort_values_sorted (l : list (group K)) :
  StronglySorted ge_traffic (sort_values_traffic_desc l).
Proof.
  induction l as [|h l IH]; simpl.
  - constructor.
  - apply insert_desc_sorted, IH.
Qed.

Lemma StronglySorted_app_le (l1 l2 : list (group K)) :
  StronglySorted ge_traffic (l1 ++ l2) ->
  forall a b, In a l1 -> In b l2 -> gtraffic b <= gtraffic a.
Proof.
  induction l1 as [|h l1 IH]; simpl; intros S a b Ia Ib; [tauto|].
  inversion S as [|? ? S' F]; subst.
  destruct Ia as [-> | Ia].
  - rewrite Forall_forall in F. apply F, in_or_app. auto.
  - eapply IH; eauto.
Qed.

Lemma StronglySorted_firstn (n : nat) (l : list (group K)) :
  StronglySorted ge_traffic l -> StronglySorted ge_traffic (firstn n l).
Proof.
  revert n. induction l as [|h l IH]; intros n S.
  - rewrite firstn_nil. constructor.
  - destruct n; simpl; [constructor|].
    inversion S as [|? ? S' F]; subst. constructor; [apply IH, S'|].
    rewrite Forall_forall in *. intros x I. apply F.
    rewrite <- (firstn_skipn n l). apply in_or_app. auto.
Qed.

End SortFacts.

(** The grouping does not depend on the order of the rows. *)

Lemma ascii_compare_refl (a : ascii) : Ascii.compare a a = Eq.
Proof. unfold Ascii.compare. apply N.compare_refl. Qed.

Lemma ascii_compare_lt_trans (a b c : ascii) :
  Ascii.compare a b = Lt -> Ascii.compare b c = Lt -> Ascii.compare a c = Lt.
Proof.
  unfold Ascii.compare. rewrite !N.compare_lt_iff. apply N.lt_trans.
Qed.

Lemma string_compare_refl (s : string) : String.compare s s = Eq.
Proof.
  induction s as [|a s IH]; simpl; [reflexivity|].
  rewrite ascii_compare_refl. exact IH.
Qed.

Lemma string_compare_lt_trans (s1 s2 s3 : string) :
  String.compare s1 s2 = Lt -> String.compare s2 s3 = Lt ->
  String.compare s1 s3 = Lt.
Proof.
  revert s2 s3. induction s1 as [|a s1 IH]; intros [|b s2] [|c s3];
    simpl; try discriminate; try reflexivity.
  destruct (Ascii.compare a b) eqn:Cab; try discriminate.
  - apply Ascii.compare_eq_iff in Cab. subst b.
    destruct (Ascii.compare a c) eqn:Cac; try discriminate; eauto.
  - destruct (Ascii.compare b c) eqn:Cbc; try discriminate.
    + apply Ascii.compare_eq_iff in Cbc. subst c. rewrite Cab. reflexivity.
    + rewrite (ascii_compare_lt_trans a b c Cab Cbc). reflexivity.
Qed.

#[export] Instance KeyOrder_string : KeyOrder string.
Proof.
  constructor; simpl; unfold String.ltb.
  - intros a. rewrite string_compare_refl. reflexivity.
  - intros a b c.
    destruct (String.compare a b) eqn:Cab; try discriminate.
    destruct (String.compare b c) eqn:Cbc; try discriminate.
    rewrite (string_compare_lt_trans a b c Cab Cbc). reflexivity.
  - intros a b N. rewrite (String.compare_antisym b a).
    destruct (String.compare a b) eqn:C; simpl; auto.
    apply String.compare_eq_iff in C. contradiction.
Qed.

Section OrderFacts.
Context {K : Type} `{KeyLaws K} `{!KeyOrder K}.

Lemma insert_by_key_sorted (g : group K) (l : list (group K)) :
  ~ In (gkey g) (map gkey l) ->
  StronglySorted key_lt l -> StronglySorted key_lt (insert_by_key g l).
Proof.
  intros NI S. induction S as [|h l S IH F]; simpl.
  - repeat constructor.
  - simpl in NI.
    destruct (kltb (gkey g) (gkey h)) eqn:C.
    + constructor; [constructor; assumption|].
      constructor; [exact C|].
      eapply Forall_impl; [| exact F].
      intros a A. unfold key_lt in *. eapply kltb_trans; eauto.
    + constructor; [apply IH; tauto|].
      eapply Permutation_Forall;
        [apply Permutation_sym, insert_by_key_perm|].
      constructor; [| exact F].
      unfold key_lt.
      assert (D : gkey h <> gkey g) by (intros E; apply NI; left; exact E).
      destruct (kltb_total (gkey h) (gkey g) D) as [T | T];
        [exact T | congruence].
Qed.

Lemma sort_by_key_sorted (l : list (group K)) :
  NoDup (map gkey l) -> StronglySorted key_lt (sort_by_key l).
Proof.
  induction l as [|h l IH]; simpl; intros ND.
  - constructor.
  - inversion ND as [|? ? NI ND']; subst.
    apply insert_by_key_sorted; [| apply IH, ND'].
    intros I. apply NI.
    eapply Permutation_in;
      [apply Permutation_map, sort_by_key_perm | exact I].
Qed.

(** Two lists sorted by key with the same elements are the same list. *)
Lemma sorted_perm_eq (l1 l2 : list (group K)) :
  StronglySorted key_lt l1 -> StronglySorted key_lt l2 ->
  Permutation l1 l2 -> l1 = l2.
Proof.
  intros S1. revert l2.
  induction S1 as [|h1 t1 S1 IH F1]; intros l2 S2 P.
  - apply Permutation_nil in P. subst. reflexivity.
  - destruct S2 as [|h2 t2 S2 F2].
    + apply Permutation_sym, Permutation_nil in P. discriminate.
    + assert (E : h1 = h2).
      { assert (I1 : In h1 (h2 :: t2))
          by (eapply Permutation_in; [exact P | left; reflexivity]).
        assert (I2 : In h2 (h1 :: t1))
          by (eapply Permutation_in;
                [apply Permutation_sym, P | left; reflexivity]).
        destruct I1 as [E | I1]; [congruence|].
        destruct I2 as [E | I2]; [congruence|].
        rewrite Forall_forall in F1, F2.
        pose proof (F1 _ I2) as A. pose proof (F2 _ I1) as B.
        unfold key_lt in A, B.
        pose proof (kltb_trans _ _ _ A B) as C.
        rewrite kltb_irrefl in C. discriminate. }
      subst h2. f_equal. apply IH; [exact S2|].
      eapply Permutation_cons_inv, P.
Qed.

Variable key : row -> K.

Lemma Permutation_members (k : K) (df df' : DataFrame) :
  Permutation df df' -> Permutation (members key k df) (members key k df').
Proof.
  unfold members. induction 1; simpl.
  - constructor.
  - destruct (keqb (key x) k); [constructor|]; assumption.
  - destruct (keqb (key x) k), (keqb (key y) k);
      try apply Permutation_refl; constructor.
  - eapply Permutation_trans; eauto.
Qed.

Lemma group_of_perm (k : K) (df df' : DataFrame) :
  Permutation df df' -> group_of key k df = group_of key k df'.
Proof.
  intros P. unfold group_of.
  rewrite (sum64_perm _ _ (Permutation_map traffic
                             (Permutation_members k _ _ P))).
  rewrite (sum64_perm _ _ (Permutation_map cookies_supported
                             (Permutation_members k _ _ P))).
  reflexivity.
Qed.

(** The result of [groupby(key).sum()] does not depend on the order of
    the rows. *)
Lemma groupby_sum_row_order (df df' : DataFrame) :
  Permutation df df' -> groupby_sum key df = groupby_sum key df'.
Proof.
  intros P. apply sorted_perm_eq.
  - apply sort_by_key_sorted, groups_nodup.
  - apply sort_by_key_sorted, groups_nodup.
  - apply NoDup_Permutation.
    + eapply NoDup_map_inv, groupby_sum_nodup.
    + eapply NoDup_map_inv, groupby_sum_nodup.
    + intros g. rewrite !groupby_sum_in.
      rewrite (group_of_perm (gkey g) df df' P). split.
      * intros [(r & I & E) G]. split; [| exact G].
        exists r. split; [eapply Permutation_in; eauto | exact E].
      * intros [(r & I & E) G]. split; [| exact G].
        exists r. split; [| exact E].
        eapply Permutation_in; [apply Permutation_sym, P | exact I].
Qed.

End OrderFacts.

Lemma top_browsers_row_order (df df' : DataFrame) :
  Permutation df df' -> top_browsers df' = top_browsers df.
Proof.
  intros P. unfold top_browsers.
  rewrite (groupby_sum_row_order browser_name df df' P). reflexivity.
Qed.

Lemma NoDup_firstn {A : Type} (n : nat) (l : list A) :
  NoDup l -> NoDup (firstn n l).
Proof.
  intros ND. rewrite <- (firstn_skipn n l) in ND.
  eapply NoDup_app_remove_r, ND.
Qed.

Lemma ranked_browsers_perm (df : DataFrame) :
  Permutation (ranked_browsers df) (groupby_sum browser_name df).
Proof. apply sort_values_perm. Qed.

Lemma ranked_browsers_in (df : DataFrame) (g : group string) :
  In g (ranked_browsers df)
  <-> (exists r, In r df /\ browser_name r = gkey g)
      /\ g = group_of browser_name (gkey g) df.
Proof.
  rewrite <- groupby_sum_in. split; apply Permutation_in;
    [| apply Permutation_sym]; apply ranked_browsers_perm.
Qed.

Lemma ranked_traffic (df : DataFrame) (g : group string) :
  In g (ranked_browsers df) -> gtraffic g = browser_traffic df (gkey g).
Proof.
  intros I. apply ranked_browsers_in in I. destruct I as [_ E].
  rewrite E at 1. reflexivity.
Qed.

Lemma descending_names (df : DataFrame) (gs : list (group string)) :
  (forall g, In g gs -> gtraffic g = browser_traffic df (gkey g)) ->
  StronglySorted ge_traffic gs ->
  StronglySorted (descending df) (map gkey gs).
Proof.
  intros T S. induction S as [|g gs S IH F]; simpl; constructor.
  - apply IH. intros x I. apply T. right. exact I.
  - rewrite Forall_forall in *. intros b I.
    apply in_map_iff in I. destruct I as (x & <- & I).
    unfold descending. rewrite <- (T g), <- (T x) by (simpl; auto).
    apply F, I.
Qed.

(** C7. Re-running the top-14 selection on the same Dataset gives the same
    ordered list, and leaves the Dataset as it was; listing the rows of the
    Dataset in another order does not change it either.  The list has at
    most 14 names, all distinct and all browsers of the Dataset, in
    decreasing order of their summed traffic, and no browser left out has
    more traffic than a selected one. *)
Theorem top_browsers_deterministic (df : DataFrame) :
  (let '(cached, (first, second)) := rerun_top_browsers df in
   cached = df /\ first = second /\ first = top_browsers df)
  /\ (forall df', Permutation df df' -> top_browsers df' = top_browsers df)
  /\ (length (top_browsers df) <= 14)%nat
  /\ NoDup (top_browsers df)
  /\ (forall b, In b (top_browsers df) ->
      exists r, In r df /\ browser_name r = b)
  /\ StronglySorted (descending df) (top_browsers df)
  /\ (forall b r, In b (top_browsers df) -> In r df ->
      ~ In (browser_name r) (top_browsers df) ->
      browser_traffic df (browser_name r) <= browser_traffic df b)
  /\ top_browsers three_browsers_dataset
     = ["Chrome"; "Firefox"; "Safari"]%string.
Proof.
  assert (E : top_browsers df = map gkey (firstn 14 (ranked_browsers df)))
    by reflexivity.
  assert (Sub : forall g, In g (firstn 14 (ranked_browsers df)) ->
                  In g (ranked_browsers df)).
  { intros g I. rewrite <- (firstn_skipn 14 (ranked_browsers df)).
    apply in_or_app. auto. }
  split; [simpl; auto|].
  split; [apply top_browsers_row_order|]. rewrite E.
  split; [rewrite length_map; apply firstn_le_length|].
  split.
  { rewrite <- firstn_map. apply NoDup_firstn.
    eapply Permutation_NoDup;
      [apply Permutation_map, Permutation_sym, ranked_browsers_perm|].
    apply groupby_sum_nodup. }
  split.
  { intros b I. apply in_map_iff in I. destruct I as (g & <- & I).
    apply Sub, ranked_browsers_in in I. tauto. }
  split.
  { apply descending_names.
    - intros g I. apply ranked_traffic, Sub, I.
    - apply StronglySorted_firstn, sort_values_sorted. }
  split; [| reflexivity].
  intros b r Ib Ir Out.
  apply in_map_iff in Ib. destruct Ib as (g & <- & Ig).
  set (g' := group_of browser_name (browser_name r) df).
  assert (Ig' : In g' (ranked_browsers df)).
  { apply ranked_browsers_in. split; [| reflexivity]. exists r. auto. }
  rewrite <- (firstn_skipn 14 (ranked_browsers df)) in Ig'.
  apply in_app_or in Ig'. destruct Ig' as [Ig' | Ig'].
  - exfalso. apply Out. apply in_map_iff. exists g'. auto.
  - rewrite <- (ranked_traffic df g) by (apply Sub, Ig).
    change (browser_traffic df (browser_name r)) with (gtraffic g').
    eapply (StronglySorted_app_le (firstn 14 (ranked_browsers df))
              (skipn 14 (ranked_browsers df))); eauto.
    rewrite firstn_skipn. apply sort_values_sorted.
Qed.

(* ================================================================== *)
(** * Exact least squares *)

Local Open Scope Qc_scope.

Section QcSums.

Lemma qsuml_qsum (l : list Qc) : qsuml l = qsum l.
Proof.
  unfold qsuml, qsum. apply fold_symmetric.
  - intros x y z. ring.
  - intros y. ring.
Qed.

Lemma Qc_sq_nonneg (a : Qc) : 0 <= a * a.
Proof.
  destruct (Qclt_le_dec a 0) as [N | P].
  - replace (a * a) with ((- a) * (- a)) by ring.
    assert (P : 0 <= - a).
    { apply Qclt_le_weak in N. apply Qcopp_le_compat in N.
      replace (- 0) with 0 in N by ring. exact N. }
    replace 0 with (0 * - a) by ring.
    apply Qcmult_le_compat_r; assumption.
  - replace 0 with (0 * a) by ring.
    apply Qcmult_le_compat_r; assumption.
Qed.

Lemma Qc_sq_zero (a : Qc) : a * a = 0 -> a = 0.
Proof. intros E. destruct (Qcmult_integral _ _ E); assumption. Qed.

Lemma Qc_add_nonneg (a b : Qc) : 0 <= a -> 0 <= b -> 0 <= a + b.
Proof.
  intros A B. replace 0 with (0 + 0) by ring.
  apply Qcplus_le_compat; assumption.
Qed.

Lemma Qc_add_zero (a b : Qc) : 0 <= a -> 0 <= b -> a + b = 0 -> a = 0 /\ b = 0.
Proof.
  intros A B E.
  assert (A' : a <= 0).
  { rewrite <- E. replace a with (a + 0) at 1 by ring.
    apply Qcplus_le_compat; [apply Qcle_refl | exact B]. }
  assert (Ea : a = 0) by (apply Qcle_antisym; assumption).
  split; [exact Ea|]. rewrite Ea in E. rewrite <- E. ring.
Qed.

Lemma qsum_nonneg (l : list Qc) :
  (forall x, In x l -> 0 <= x) -> 0 <= qsum l.
Proof.
  induction l as [|h l IH]; intros P; simpl.
  - apply Qcle_refl.
  - apply Qc_add_nonneg; [apply P; left; reflexivity|].
    apply IH. intros x I. apply P. right. exact I.
Qed.

Lemma qsum_zero (l : list Qc) :
  (forall x, In x l -> 0 <= x) -> qsum l = 0 -> forall x, In x l -> x = 0.
Proof.
  induction l as [|h l IH]; intros P E x I; simpl in *; [tauto|].
  destruct (Qc_add_zero h (qsum l)) as [Eh El]; auto.
  { apply qsum_nonneg. intros y Iy. apply P. auto. }
  destruct I as [<- | I]; [exact Eh|].
  apply IH; auto.
Qed.

End QcSums.

Section Moments.

Lemma map2_combine {A B C : Type} (f : A -> B -> C) (l : list A)
  (m : list B) :
  map2 f l m = map (fun p => f (fst p) (snd p)) (combine l m).
Proof. reflexivity. Qed.

Lemma combine_map2 {A B A' B' : Type} (f : A -> A') (g : B -> B')
  (l : list A) (m : list B) :
  combine (map f l) (map g m)
  = map (fun p => (f (fst p), g (snd p))) (combine l m).
Proof.
  revert m. induction l as [|a l IH]; intros [|b m]; simpl; try reflexivity.
  f_equal. apply IH.
Qed.

Lemma map_fst_combine {A B : Type} (l : list A) (m : list B) :
  length l = length m -> map fst (combine l m) = l.
Proof.
  revert m. induction l as [|a l IH]; intros [|b m] E; simpl in *;
    try reflexivity; try discriminate.
  f_equal. apply IH. congruence.
Qed.

Lemma map_snd_combine {A B : Type} (l : list A) (m : list B) :
  length l = length m -> map snd (combine l m) = m.
Proof.
  revert m. induction l as [|a l IH]; intros [|b m] E; simpl in *;
    try reflexivity; try discriminate.
  f_equal. apply IH. congruence.
Qed.

Lemma Zq_succ (n : nat) : Zq (Z.of_nat (S n)) = Zq (Z.of_nat n) + 1.
Proof. rewrite Nat2Z.inj_succ. unfold Z.succ. rewrite Zq_add. reflexivity. Qed.

Lemma Zq_nat_neq0 (n : nat) : n <> O -> Zq (Z.of_nat n) <> 0.
Proof. intros N. apply (Zq_neq0 (Z.of_nat n)). lia. Qed.

Variable ps : list (Qc * Qc).

Lemma moment_count :
  moment (fun _ => 1) ps = Zq (Z.of_nat (length ps)).
Proof.
  unfold moment. induction ps as [|p l IH].
  - reflexivity.
  - cbn [map qsum fold_right length]. fold (qsum (map (fun _ => 1) l)).
    rewrite Zq_succ, IH. ring.
Qed.

(** A sum whose terms are a fixed combination of six other terms is that
    combination of the six sums. *)
Lemma moment_combine (f g1 g2 g3 g4 g5 g6 : Qc * Qc -> Qc)
  (c1 c2 c3 c4 c5 c6 : Qc) :
  (forall p, f p = c1 * g1 p + c2 * g2 p + c3 * g3 p
                   + c4 * g4 p + c5 * g5 p + c6 * g6 p) ->
  moment f ps
  = c1 * moment g1 ps + c2 * moment g2 ps + c3 * moment g3 ps
    + c4 * moment g4 ps + c5 * moment g5 ps + c6 * moment g6 ps.
Proof.
  intros E. unfold moment. induction ps as [|p l IH]; simpl.
  - ring.
  - rewrite IH, E. ring.
Qed.

End Moments.

Section LeastSquares.
Variable ps : list (Qc * Qc).

Lemma moment_resid (a b : Qc) :
  moment (resid a b) ps = My ps - a * Mx ps - b * M0 ps.
Proof.
  unfold M0, Mx, My.
  rewrite (moment_combine ps (resid a b) (fun _ => 1) fst snd
             (fun _ => 0) (fun _ => 0) (fun _ => 0)
             (- b) (- a) 1 0 0 0).
  - ring.
  - intros p. unfold resid. ring.
Qed.

Lemma moment_resid_x (a b : Qc) :
  moment (fun p => resid a b p * fst p) ps
  = Mxy ps - a * Mxx ps - b * Mx ps.
Proof.
  unfold Mx, Mxx, Mxy.
  rewrite (moment_combine ps (fun p => resid a b p * fst p)
             fst (fun p => fst p * fst p) (fun p => fst p * snd p)
             (fun _ => 0) (fun _ => 0) (fun _ => 0)
             (- b) (- a) 1 0 0 0).
  - ring.
  - intros p. unfold resid. ring.
Qed.

Lemma moment_sq_resid (a b : Qc) :
  moment (fun p => resid a b p * resid a b p) ps
  = Myy ps + a * a * Mxx ps + b * b * M0 ps
    - (1 + 1) * a * Mxy ps - (1 + 1) * b * My ps + (1 + 1) * a * b * Mx ps.
Proof.
  unfold M0, Mx, My, Mxx, Mxy, Myy.
  rewrite (moment_combine ps (fun p => resid a b p * resid a b p)
             (fun _ => 1) fst snd
             (fun p => fst p * fst p) (fun p => fst p * snd p)
             (fun p => snd p * snd p)
             (b * b) ((1 + 1) * a * b) (- ((1 + 1) * b)) (a * a)
             (- ((1 + 1) * a)) 1).
  - ring.
  - intros p. unfold resid. ring.
Qed.

Lemma moment_sq_line (u w : Qc) :
  moment (fun p => (u * fst p + w) * (u * fst p + w)) ps
  = u * u * Mxx ps + (1 + 1) * u * w * Mx ps + w * w * M0 ps.
Proof.
  unfold M0, Mx, Mxx.
  rewrite (moment_combine ps (fun p => (u * fst p + w) * (u * fst p + w))
             (fun _ => 1) fst (fun p => fst p * fst p)
             (fun _ => 0) (fun _ => 0) (fun _ => 0)
             (w * w) ((1 + 1) * u * w) (u * u) 0 0 0).
  - ring.
  - intros p. ring.
Qed.

Lemma moment_dev_x (m : Qc) :
  moment (fun p => (fst p + - m) * (fst p + - m)) ps
  = Mxx ps - (1 + 1) * m * Mx ps + m * m * M0 ps.
Proof.
  unfold M0, Mx, Mxx.
  rewrite (moment_combine ps (fun p => (fst p + - m) * (fst p + - m))
             (fun _ => 1) fst (fun p => fst p * fst p)
             (fun _ => 0) (fun _ => 0) (fun _ => 0)
             (m * m) (- ((1 + 1) * m)) 1 0 0 0).
  - ring.
  - intros p. ring.
Qed.

Lemma moment_dev_xy (m m' : Qc) :
  moment (fun p => (fst p + - m) * (snd p + - m')) ps
  = Mxy ps - m * My ps - m' * Mx ps + m * m' * M0 ps.
Proof.
  unfold M0, Mx, My, Mxy.
  rewrite (moment_combine ps (fun p => (fst p + - m) * (snd p + - m'))
             (fun _ => 1) fst snd (fun p => fst p * snd p)
             (fun _ => 0) (fun _ => 0)
             (m * m') (- m') (- m) 1 0 0).
  - ring.
  - intros p. ring.
Qed.

(** The squared residuals of any line against those of a reference line:
    the difference is a sum of squares, up to the two normal-equation
    terms. *)
Lemma sq_resid_shift (a b u w : Qc) :
  moment (fun p => resid (a + u) (b + w) p * resid (a + u) (b + w) p) ps
  = moment (fun p => resid a b p * resid a b p) ps
    + moment (fun p => (u * fst p + w) * (u * fst p + w)) ps
    - (1 + 1) * u * moment (fun p => resid a b p * fst p) ps
    - (1 + 1) * w * moment (resid a b) ps.
Proof.
  rewrite !moment_sq_resid, moment_sq_line, moment_resid_x, moment_resid.
  ring.
Qed.

Lemma moment_sq_nonneg (f : Qc * Qc -> Qc) :
  0 <= moment (fun p => f p * f p) ps.
Proof.
  apply qsum_nonneg. intros x I. apply in_map_iff in I.
  destruct I as (p & <- & _). apply Qc_sq_nonneg.
Qed.

Hypothesis nonempty : M0 ps <> 0.
Hypothesis spread : Sxx ps <> 0.

Lemma normal_equations :
  let slope := Sxy ps / Sxx ps in
  let intercept := My ps / M0 ps + - (slope * (Mx ps / M0 ps)) in
  moment (resid slope intercept) ps = 0
  /\ moment (fun p => resid slope intercept p * fst p) ps = 0.
Proof.
  intros slope intercept.
  assert (Es : slope * Sxx ps = Sxy ps) by (unfold slope; field; exact spread).
  rewrite moment_resid, moment_resid_x. split.
  - unfold intercept. field. exact nonempty.
  - assert (E : Mxy ps - slope * Mxx ps - intercept * Mx ps
                = Sxy ps - slope * Sxx ps).
    { unfold Sxx, Sxy. rewrite moment_dev_x, moment_dev_xy.
      unfold intercept. field. exact nonempty. }
    rewrite E, Es. ring.
Qed.

(** The fitted line minimises the sum of squared residuals. *)
Lemma least_squares (a b : Qc) :
  let slope := Sxy ps / Sxx ps in
  let intercept := My ps / M0 ps + - (slope * (Mx ps / M0 ps)) in
  moment (fun p => resid slope intercept p * resid slope intercept p) ps
  <= moment (fun p => resid a b p * resid a b p) ps.
Proof.
  intros slope intercept.
  destruct normal_equations as [N1 N2].
  fold slope in N1, N2. fold intercept in N1, N2.
  replace a with (slope + (a - slope)) by ring.
  replace b with (intercept + (b - intercept)) by ring.
  rewrite sq_resid_shift, N1, N2.
  match goal with |- ?s <= ?s + ?q - _ - _ =>
    replace (s + q - (1 + 1) * (a - slope) * 0
               - (1 + 1) * (b - intercept) * 0) with (s + q) by ring;
    replace s with (s + 0) at 1 by ring;
    apply Qcplus_le_compat; [apply Qcle_refl | apply moment_sq_nonneg]
  end.
Qed.

End LeastSquares.

(* ================================================================== *)
(** * The trend estimator on finite values *)

Section FiniteFloats.

Lemma fold_fadd_fin (l : list Qc) (a : Qc) :
  fold_left fadd (map Fin l) (Fin a) = Fin (fold_left Qcplus l a).
Proof.
  revert a. induction l as [|x l IH]; intros a; simpl.
  - reflexivity.
  - apply IH.
Qed.

Lemma fsum_fin (l : list Qc) : fsum (map Fin l) = Fin (qsuml l).
Proof. apply fold_fadd_fin. Qed.

Lemma fdiv_fin (a b : Qc) : b <> 0 -> fdiv (Fin a) (Fin b) = Fin (a / b).
Proof.
  intros N. cbn [fdiv]. destruct (sgn b) eqn:S; try reflexivity.
  apply sgn_Eq in S. contradiction.
Qed.

Lemma mean_fin (l : list Qc) : l <> [] -> mean (map Fin l) = Fin (qmean l).
Proof.
  intros N. unfold mean, qmean. rewrite fsum_fin, length_map, of_int_Zq.
  apply fdiv_fin, Zq_nat_neq0. destruct l; [contradiction | discriminate].
Qed.

Lemma map2_fmul_fin (l m : list Qc) :
  map2 fmul (map Fin l) (map Fin m) = map Fin (map2 Qcmult l m).
Proof.
  unfold map2. rewrite combine_map2, !map_map. reflexivity.
Qed.

Lemma cov1_fin (n : nat) (dx dy : list Qc) :
  n <> O -> cov1 n (map Fin dx) (map Fin dy) = Fin (qcov n dx dy).
Proof.
  intros N. unfold cov1, qcov.
  rewrite map2_fmul_fin, fsum_fin, !of_int_Zq.
  rewrite fdiv_fin by (apply Zq_nat_neq0, N). reflexivity.
Qed.

Lemma map_fsub_fin (m : Qc) (l : list Qc) :
  map (fun v => fsub v (Fin m)) (map Fin l)
  = map Fin (map (fun v => v + - m) l).
Proof. rewrite !map_map. reflexivity. Qed.

(** On finite values with a non-zero variance of [x], [linregress]
    returns the exact fit. *)
Lemma linregress_fin (x : list Z) (ys : list Qc) :
  length x = length ys ->
  x <> [] ->
  zmax x <> zmin x \/ length x = 1%nat ->
  qcov (length x)
       (map (fun v => v + - qmean (map Zq x)) (map Zq x))
       (map (fun v => v + - qmean (map Zq x)) (map Zq x)) <> 0 ->
  linregress x (map Fin ys)
  = Ok (Fin (fst (exact_fit (map Zq x) ys)),
        Fin (snd (exact_fit (map Zq x) ys))).
Proof.
  intros L N D V. unfold linregress. cbv zeta.
  assert (Lx : length x <> O) by (destruct x; [contradiction | discriminate]).
  assert (Ny : ys <> []).
  { destruct ys; [simpl in L; congruence | discriminate]. }
  rewrite length_map, <- L.
  destruct (length x =? 0)%nat eqn:E0; [apply Nat.eqb_eq in E0; contradiction|].
  cbn [orb].
  assert (G : (zmax x =? zmin x) && (1 <? length x)%nat = false).
  { destruct D as [D | D].
    - apply Z.eqb_neq in D. rewrite D. reflexivity.
    - rewrite D. apply andb_false_r. }
  rewrite G, Nat.eqb_refl. cbn [negb].
  replace (map of_int x) with (map Fin (map Zq x))
    by (rewrite map_map; reflexivity).
  assert (Nx : map Zq x <> []) by (destruct x; [contradiction | discriminate]).
  rewrite (mean_fin ys Ny), (mean_fin (map Zq x) Nx).
  rewrite !map_fsub_fin, !cov1_fin by exact Lx.
  rewrite fdiv_fin by exact V.
  unfold exact_fit. cbv zeta. rewrite length_map. reflexivity.
Qed.

End FiniteFloats.

Section FitFacts.
Variable xs ys : list Qc.
Hypothesis same_length : length xs = length ys.
Hypothesis nonempty : xs <> [].

Lemma map2_same {A B : Type} (g : A -> A -> B) (l : list A) :
  map2 g l l = map (fun x => g x x) l.
Proof. unfold map2. induction l; simpl; congruence. Qed.

Lemma moment_fst (h : Qc -> Qc) :
  moment (fun p => h (fst p)) (combine xs ys) = qsum (map h xs).
Proof.
  unfold moment. rewrite <- (map_fst_combine xs ys same_length) at 2.
  rewrite map_map. reflexivity.
Qed.

Lemma moment_snd (h : Qc -> Qc) :
  moment (fun p => h (snd p)) (combine xs ys) = qsum (map h ys).
Proof.
  unfold moment. rewrite <- (map_snd_combine xs ys same_length) at 2.
  rewrite map_map. reflexivity.
Qed.

Lemma M0_length : M0 (combine xs ys) = Zq (Z.of_nat (length xs)).
Proof.
  unfold M0. rewrite moment_count, length_combine, <- same_length, Nat.min_id.
  reflexivity.
Qed.

Lemma M0_neq0 : M0 (combine xs ys) <> 0.
Proof.
  rewrite M0_length. apply Zq_nat_neq0.
  destruct xs; [contradiction | discriminate].
Qed.

Lemma qmean_x : qmean xs = Mx (combine xs ys) / M0 (combine xs ys).
Proof.
  unfold qmean, Mx, moment. rewrite M0_length, qsuml_qsum.
  rewrite (map_fst_combine xs ys same_length). reflexivity.
Qed.

Lemma qmean_y : qmean ys = My (combine xs ys) / M0 (combine xs ys).
Proof.
  unfold qmean, My, moment. rewrite M0_length, qsuml_qsum, <- same_length.
  rewrite (map_snd_combine xs ys same_length). reflexivity.
Qed.

Lemma qcov_xx :
  qcov (length xs) (map (fun v => v + - qmean xs) xs)
                   (map (fun v => v + - qmean xs) xs)
  = Sxx (combine xs ys) * (Zq 1 / M0 (combine xs ys)).
Proof.
  unfold qcov, Sxx. rewrite <- qmean_x, M0_length. f_equal.
  rewrite qsuml_qsum, map2_same, map_map.
  rewrite (moment_fst (fun x => (x + - qmean xs) * (x + - qmean xs))).
  reflexivity.
Qed.

Lemma qcov_xy :
  qcov (length xs) (map (fun v => v + - qmean xs) xs)
                   (map (fun v => v + - qmean ys) ys)
  = Sxy (combine xs ys) * (Zq 1 / M0 (combine xs ys)).
Proof.
  unfold qcov, Sxy. rewrite <- qmean_x, <- qmean_y, M0_length. f_equal.
  rewrite qsuml_qsum.
  unfold map2. rewrite combine_map2, map_map. reflexivity.
Qed.

Lemma exact_fit_moments :
  Sxx (combine xs ys) <> 0 ->
  exact_fit xs ys
  = (Sxy (combine xs ys) / Sxx (combine xs ys),
     My (combine xs ys) / M0 (combine xs ys)
     + - (Sxy (combine xs ys) / Sxx (combine xs ys)
          * (Mx (combine xs ys) / M0 (combine xs ys)))).
Proof.
  intros V. unfold exact_fit. cbv zeta.
  rewrite qcov_xx, qcov_xy, <- qmean_x, <- qmean_y.
  assert (E : Sxy (combine xs ys) * (Zq 1 / M0 (combine xs ys))
              / (Sxx (combine xs ys) * (Zq 1 / M0 (combine xs ys)))
              = Sxy (combine xs ys) / Sxx (combine xs ys)).
  { change (Zq 1) with 1. field. split; [exact V | exact M0_neq0]. }
  rewrite E. reflexivity.
Qed.

Lemma qcov_xx_neq0 :
  Sxx (combine xs ys) <> 0 ->
  qcov (length xs) (map (fun v => v + - qmean xs) xs)
                   (map (fun v => v + - qmean xs) xs) <> 0.
Proof.
  intros V. rewrite qcov_xx. intros E.
  apply Qcmult_integral in E. destruct E as [E | E]; [contradiction|].
  change (Zq 1) with 1 in E.
  assert (I : 1 / M0 (combine xs ys) * M0 (combine xs ys) = 1)
    by (field; exact M0_neq0).
  rewrite E in I. apply Q_apart_0_1. rewrite <- I. ring.
Qed.

(** Two different abscissas give a non-zero variance. *)
Lemma Sxx_neq0 (a b : Qc) :
  In a xs -> In b xs -> a <> b -> Sxx (combine xs ys) <> 0.
Proof.
  intros Ia Ib D E. unfold Sxx in E. rewrite <- qmean_x in E.
  rewrite (moment_fst (fun x => (x + - qmean xs) * (x + - qmean xs))) in E.
  assert (P : forall y,
    In y (map (fun x => (x + - qmean xs) * (x + - qmean xs)) xs) -> 0 <= y).
  { intros y Iy. apply in_map_iff in Iy. destruct Iy as (z & <- & _).
    apply Qc_sq_nonneg. }
  assert (Z : forall x, In x xs -> x = qmean xs).
  { intros x I.
    assert (S : (x + - qmean xs) * (x + - qmean xs) = 0).
    { apply (qsum_zero _ P E). apply in_map_iff. exists x. auto. }
    apply Qc_sq_zero in S.
    replace x with (x + - qmean xs + qmean xs) by ring. rewrite S. ring. }
  apply D. rewrite (Z a Ia), (Z b Ib). reflexivity.
Qed.

End FitFacts.

Section MaxMin.

Lemma fold_max_ge (t : list Z) (a : Z) :
  (a <= fold_left Z.max t a)%Z
  /\ forall b, In b t -> (b <= fold_left Z.max t a)%Z.
Proof.
  revert a. induction t as [|h t IH]; intros a; simpl.
  - split; [lia | tauto].
  - destruct (IH (Z.max a h)) as [A B]. split; [lia|].
    intros b [<- | I]; [lia | auto].
Qed.

Lemma fold_min_le (t : list Z) (a : Z) :
  (fold_left Z.min t a <= a)%Z
  /\ forall b, In b t -> (fold_left Z.min t a <= b)%Z.
Proof.
  revert a. induction t as [|h t IH]; intros a; simpl.
  - split; [lia | tauto].
  - destruct (IH (Z.min a h)) as [A B]. split; [lia|].
    intros b [<- | I]; [lia | auto].
Qed.

Lemma zmin_le_zmax (l : list Z) (a : Z) :
  In a l -> (zmin l <= a <= zmax l)%Z.
Proof.
  destruct l as [|h t]; simpl; [tauto|].
  destruct (fold_max_ge t h) as [A B], (fold_min_le t h) as [C D].
  intros [<- | I]; split; auto.
Qed.

(** Two different values keep the maximum and the minimum apart. *)
Lemma zmax_neq_zmin (l : list Z) (a b : Z) :
  In a l -> In b l -> a <> b -> zmax l <> zmin l.
Proof.
  intros Ia Ib D E.
  pose proof (zmin_le_zmax l a Ia). pose proof (zmin_le_zmax l b Ib). lia.
Qed.

End MaxMin.

Section MomentFacts.
Variable ps : list (Qc * Qc).

Lemma moment_ext_in (f g : Qc * Qc -> Qc) :
  (forall p, In p ps -> f p = g p) -> moment f ps = moment g ps.
Proof.
  intros E. unfold moment. f_equal. apply map_ext_in, E.
Qed.

Lemma moment_scal (c : Qc) (f : Qc * Qc -> Qc) :
  moment (fun p => c * f p) ps = c * moment f ps.
Proof.
  unfold moment. induction ps as [|p l IH]; simpl.
  - ring.
  - rewrite IH. ring.
Qed.

End MomentFacts.

Lemma combine_map_in {A B : Type} (f : A -> B) (l : list A) (p : A * B) :
  In p (combine l (map f l)) -> snd p = f (fst p).
Proof.
  induction l as [|a l IH]; simpl; [tauto|].
  intros [<- | I]; [reflexivity | auto].
Qed.

Lemma ordinals_map (dates : list Timestamp) :
  ordinals dates = map Zq (map toordinal dates).
Proof. unfold ordinals. rewrite map_map. reflexivity. Qed.

Lemma ordinals_distinct (dates : list Timestamp) (d1 d2 : Timestamp) :
  In d1 dates -> In d2 dates -> d1 <> d2 ->
  In (Zq (toordinal d1)) (ordinals dates)
  /\ In (Zq (toordinal d2)) (ordinals dates)
  /\ Zq (toordinal d1) <> Zq (toordinal d2)
  /\ zmax (map toordinal dates) <> zmin (map toordinal dates).
Proof.
  intros I1 I2 D.
  assert (T : toordinal d1 <> toordinal d2) by (unfold toordinal; lia).
  split; [apply (in_map (fun d => Zq (toordinal d))), I1|].
  split; [apply (in_map (fun d => Zq (toordinal d))), I2|].
  split; [intros E; apply T, Zq_inj, E|].
  apply (zmax_neq_zmin _ (toordinal d1) (toordinal d2));
    [apply in_map, I1 | apply in_map, I2 | exact T].
Qed.

(** With finite values, as many as the dates, and two different dates,
    the trend estimator returns the values of the exact fit at the
    dates. *)
Lemma line_of_best_fit_fin (dates : list Timestamp) (ys : list Qc) :
  length dates = length ys ->
  (exists d1 d2, In d1 dates /\ In d2 dates /\ d1 <> d2) ->
  Sxx (points dates ys) <> 0
  /\ line_of_best_fit dates (map Fin ys)
     = Ok (map (fun d =>
              Fin (fst (exact_fit (ordinals dates) ys) * Zq (toordinal d)
                   + snd (exact_fit (ordinals dates) ys))) dates).
Proof.
  intros L (d1 & d2 & I1 & I2 & D).
  destruct (ordinals_distinct dates d1 d2 I1 I2 D) as (J1 & J2 & Dq & Dz).
  assert (Lq : length (ordinals dates) = length ys)
    by (unfold ordinals; rewrite length_map; exact L).
  assert (Nq : ordinals dates <> []).
  { intros E. rewrite E in J1. exact J1. }
  assert (V : Sxx (points dates ys) <> 0)
    by (apply (Sxx_neq0 _ _ Lq _ _ J1 J2 Dq)).
  split; [exact V|].
  unfold line_of_best_fit.
  rewrite linregress_fin.
  - cbn [bind fst snd]. f_equal. rewrite map_map, <- ordinals_map.
    reflexivity.
  - rewrite length_map. exact L.
  - intros E. apply Nq. rewrite ordinals_map, E. reflexivity.
  - left. exact Dz.
  - rewrite length_map, <- ordinals_map.
    replace (length dates) with (length (ordinals dates))
      by (unfold ordinals; apply length_map).
    apply (qcov_xx_neq0 _ ys Lq Nq V).
Qed.




Lemma exact_fit_on_line (k c : Qc) (dates : list Timestamp) :
  Sxx (points dates (on_line k c dates)) <> 0 ->
  exact_fit (ordinals dates) (on_line k c dates) = (k, c).
Proof.
  intros V.
  assert (Lq : length (ordinals dates) = length (on_line k c dates))
    by (unfold ordinals, on_line; rewrite !length_map; reflexivity).
  assert (Nq : ordinals dates <> []).
  { intros E. apply V. unfold points. rewrite E. reflexivity. }
  pose proof (M0_neq0 _ _ Lq Nq) as N0.
  rewrite (exact_fit_moments _ _ Lq Nq V).
  fold (points dates (on_line k c dates)) in *.
  set (ps := points dates (on_line k c dates)) in *.
  assert (P : forall p, In p ps -> snd p = k * fst p + c).
  { intros p I. unfold ps, points, on_line, ordinals in I.
    rewrite <- (map_map (fun d => Zq (toordinal d))
                        (fun x => k * x + c)) in I.
    apply (combine_map_in (fun x => k * x + c)) in I. exact I. }
  assert (Ey : My ps = k * Mx ps + c * M0 ps).
  { unfold My. rewrite (moment_ext_in ps snd (fun p => k * fst p + c) P).
    unfold Mx, M0.
    rewrite (moment_combine ps (fun p => k * fst p + c) fst (fun _ => 1)
               (fun _ => 0) (fun _ => 0) (fun _ => 0) (fun _ => 0)
               k c 0 0 0 0) by (intros p; ring).
    ring. }
  assert (Em : My ps / M0 ps = k * (Mx ps / M0 ps) + c).
  { rewrite Ey. field. exact N0. }
  assert (Es : Sxy ps = k * Sxx ps).
  { unfold Sxy, Sxx. rewrite Em, <- moment_scal.
    apply moment_ext_in. intros p I. rewrite (P p I). ring. }
  f_equal.
  - rewrite Es. field. exact V.
  - rewrite Es, Em. field. split; [exact N0 | exact V].
Qed.




(** On the inputs of the two examples above the run on binary64 returns
    the same values, here without any rounding error. *)
Lemma binary64_examples :
  Binary64.line_of_best_fit three_dates (map Binary64.of_int [30; 10; 26])
  = Ok (map Binary64.of_int [24; 22; 20])
  /\ line_of_best_fit three_dates (map of_int [30; 10; 26])
     = Ok (map of_int [24; 22; 20])
  /\ Binary64.line_of_best_fit
       [to_datetime 2021 1 1; to_datetime 2021 1 2; to_datetime 2021 1 5]
       (map (fun d => Binary64.of_int (2 * toordinal d + 3))
          [to_datetime 2021 1 1; to_datetime 2021 1 2; to_datetime 2021 1 5])
     = Ok (map (fun d => Binary64.of_int (2 * toordinal d + 3))
          [to_datetime 2021 1 1; to_datetime 2021 1 2; to_datetime 2021 1 5]).
Proof.
  split; [vm_compute; reflexivity|]. split; [| vm_compute; reflexivity].
  vm_compute. float_eq.
Qed.

(** C1, as stated, fails on one point: the slope is 0/0, no error is
    raised and the single fitted value is NaN. *)
Lemma line_of_best_fit_one_point_no_error :
  line_of_best_fit [to_datetime 2021 1 1] [of_int 29] = Ok [NaN].
Proof. reflexivity. Qed.

Lemma qcov_single_zero (a m e : Qc) :
  m = a -> qcov 1 [a + - m] [e] = 0.
Proof. intros ->. unfold qcov, qsuml, map2. simpl. ring. Qed.

Lemma qmean_single (a : Qc) : qmean [a] = a.
Proof.
  unfold qmean, qsuml. simpl. change (Zq 1) with 1. field.
  apply Q_apart_0_1.
Qed.

Lemma linregress_single_fin (x : Z) (b : Qc) :
  exists i, linregress [x] [Fin b] = Ok (NaN, i) /\ i = NaN.
Proof.
  unfold linregress. cbv zeta.
  change ([Fin b]) with (map Fin [b]).
  change (map of_int [x]) with (map Fin [Zq x]).
  cbn [length Nat.eqb orb negb].
  rewrite Z.eqb_refl. cbn [Nat.ltb Nat.leb andb].
  rewrite !mean_fin by discriminate.
  rewrite !map_fsub_fin, !cov1_fin by discriminate.
  cbn [map].
  rewrite !qcov_single_zero by apply qmean_single.
  eexists. split; reflexivity.
Qed.

Lemma linregress_single_nonfinite (x : Z) (v : float64) :
  is_finite v = false -> linregress [x] [v] = Ok (NaN, NaN).
Proof.
  intros F. unfold linregress. cbv zeta.
  change (map of_int [x]) with (map Fin [Zq x]).
  cbn [length Nat.eqb orb negb].
  rewrite Z.eqb_refl. cbn [Nat.ltb Nat.leb andb].
  rewrite (mean_fin [Zq x]) by discriminate.
  rewrite !map_fsub_fin. cbn [map].
  destruct v as [b| | |]; [discriminate | | |].
  - change (mean [PInf]) with PInf.
    cbn [cov1 map2 combine map fst snd fsub fadd fneg fmul fdiv fsum
         fold_left].
    reflexivity.
  - change (mean [NInf]) with NInf.
    cbn [cov1 map2 combine map fst snd fsub fadd fneg fmul fdiv fsum
         fold_left].
    reflexivity.
  - change (mean [NaN]) with NaN.
    cbn [cov1 map2 combine map fst snd fsub fadd fneg fmul fdiv fsum
         fold_left].
    reflexivity.
Qed.

(** C1 (amended). Without any date or without any value the trend
    estimator fails with the error of empty inputs.  On exactly one point
    it does not fail: it returns one fitted value, NaN. *)
Theorem line_of_best_fit_few_points :
  (forall y, line_of_best_fit [] y
             = Raise (ValueError "Inputs must not be empty."))
  /\ (forall dates, line_of_best_fit dates []
                    = Raise (ValueError "Inputs must not be empty."))
  /\ (forall d v, line_of_best_fit [d] [v] = Ok [NaN]).
Proof.
  split; [reflexivity|]. split.
  - intros dates. unfold line_of_best_fit, linregress.
    cbn [length Nat.eqb]. rewrite orb_true_r. reflexivity.
  - intros d v. unfold line_of_best_fit. cbn [map].
    destruct v as [b| | |].
    + destruct (linregress_single_fin (toordinal d) b) as (i & -> & ->).
      reflexivity.
    + rewrite linregress_single_nonfinite by reflexivity. reflexivity.
    + rewrite linregress_single_nonfinite by reflexivity. reflexivity.
    + rewrite linregress_single_nonfinite by reflexivity. reflexivity.
Qed.

(* ================================================================== *)
(** * Further properties of the script *)

Local Close Scope Qc_scope.

(* ================================================================== *)
(** * The option filter *)

Lemma filter_true {A : Type} (l : list A) : filter (fun _ => true) l = l.
Proof. induction l; simpl; congruence. Qed.

Lemma filter_filter {A : Type} (p q : A -> bool) (l : list A) :
  filter p (filter q l) = filter (fun x => q x && p x) l.
Proof.
  induction l as [|a l IH]; simpl; [reflexivity|].
  destruct (q a); simpl; [destruct (p a) |]; congruence.
Qed.

Lemma filter_ext_in_eq {A : Type} (p q : A -> bool) (l : list A) :
  (forall x, In x l -> p x = q x) -> filter p l = filter q l.
Proof.
  induction l as [|a l IH]; simpl; intros E; [reflexivity|].
  rewrite (E a) by auto. rewrite IH by auto. reflexivity.
Qed.

Lemma filter_all {A : Type} (p : A -> bool) (l : list A) :
  (forall x, In x l -> p x = true) -> filter p l = l.
Proof.
  intros E. rewrite (filter_ext_in_eq p (fun _ => true) l E).
  apply filter_true.
Qed.

(** The option filter is one pass over the table. *)
Lemma filter_df_by_options_passes (df : DataFrame)
  (device_opt browser_opt : option string) :
  filter_df_by_options df device_opt browser_opt
  = filter (passes device_opt browser_opt) df.
Proof.
  unfold filter_df_by_options, passes.
  destruct device_opt as [d|], browser_opt as [b|];
    repeat match goal with
           | |- context [truthy ?o] => destruct (truthy o)
           end;
    cbn [negb orb andb];
    rewrite ?filter_filter, ?filter_true;
    try reflexivity;
    apply filter_ext_in_eq; intros r _;
    rewrite ?andb_true_r; reflexivity.
Qed.

(** X1. A row is in the filtered table exactly when it is in the table
    and carries the device type and browser name asked for; an option
    that is absent or the empty string asks for nothing. *)
Theorem filter_df_by_options_rows (df : DataFrame)
  (device_opt browser_opt : option string) (r : row) :
  In r (filter_df_by_options df device_opt browser_opt)
  <-> In r df
      /\ (truthy device_opt = true -> device_opt = Some (device_type r))
      /\ (truthy browser_opt = true -> browser_opt = Some (browser_name r)).
Proof.
  rewrite filter_df_by_options_passes, filter_In. unfold passes.
  rewrite andb_true_iff.
  assert (D : forall (o : option string) (s : string),
    match o with
    | Some d => negb (truthy o) || String.eqb s d
    | None => true
    end = true <-> (truthy o = true -> o = Some s)).
  { intros [d|] s.
    - destruct (truthy (Some d)); cbn [negb orb].
      + rewrite String.eqb_eq. split.
        * intros -> _. reflexivity.
        * intros E. specialize (E eq_refl). congruence.
      + split; [discriminate | reflexivity].
    - simpl. split; [discriminate | reflexivity]. }
  rewrite !D. tauto.
Qed.

(** X2. Filtering in two steps, in either order, is filtering once with
    both options, and filtering again with the same options changes
    nothing. *)
Theorem filter_df_by_options_compose (df : DataFrame)
  (device_opt browser_opt : option string) :
  filter_df_by_options (filter_df_by_options df device_opt None)
    None browser_opt
  = filter_df_by_options df device_opt browser_opt
  /\ filter_df_by_options (filter_df_by_options df None browser_opt)
       device_opt None
     = filter_df_by_options df device_opt browser_opt
  /\ filter_df_by_options
       (filter_df_by_options df device_opt browser_opt)
       device_opt browser_opt
     = filter_df_by_options df device_opt browser_opt.
Proof.
  rewrite !filter_df_by_options_passes, !filter_filter.
  repeat split; apply filter_ext_in_eq; intros r _; unfold passes;
    destruct device_opt, browser_opt;
    repeat match goal with
           | |- context [truthy ?o] => destruct (truthy o)
           end;
    cbn [negb orb andb];
    repeat match goal with
           | |- context [String.eqb ?a ?b] => destruct (String.eqb a b)
           end;
    reflexivity.
Qed.
(* ================================================================== *)
(** * The restricted table *)

Lemma groupby_keys_perm {K : Type} `{KeyLaws K} (key : row -> K)
  (df : DataFrame) :
  Permutation (map gkey (groupby_sum key df)) (unique (map key df)).
Proof.
  apply NoDup_Permutation.
  - apply groupby_sum_nodup.
  - apply unique_nodup.
  - intros k. rewrite unique_in, !in_map_iff. split.
    + intros (g & <- & I). apply groupby_sum_in in I.
      destruct I as [(r & I & E) _]. exists r. auto.
    + intros (r & <- & I). exists (group_of key (key r) df).
      split; [reflexivity|]. apply groupby_sum_in.
      split; [| reflexivity]. exists r. auto.
Qed.

Lemma ranked_browsers_keys (df : DataFrame) :
  Permutation (map gkey (ranked_browsers df)) (browsers df).
Proof.
  eapply Permutation_trans;
    [apply Permutation_map, ranked_browsers_perm|].
  apply (groupby_keys_perm browser_name).
Qed.

Lemma top_browsers_length (df : DataFrame) :
  length (top_browsers df) = Nat.min 14 (length (browsers df)).
Proof.
  unfold top_browsers. fold (ranked_browsers df).
  rewrite length_map, length_firstn.
  rewrite <- (Permutation_length (ranked_browsers_keys df)), length_map.
  reflexivity.
Qed.

Lemma top_browsers_all (df : DataFrame) :
  (length (browsers df) <= 14)%nat ->
  forall r, In r df -> In (browser_name r) (top_browsers df).
Proof.
  intros L r I. unfold top_browsers. fold (ranked_browsers df).
  rewrite firstn_all2.
  - eapply Permutation_in;
      [apply Permutation_sym, ranked_browsers_keys|].
    apply unique_in, in_map, I.
  - rewrite <- (length_map gkey),
      (Permutation_length (ranked_browsers_keys df)). exact L.
Qed.

Lemma top_browsers_sub (df : DataFrame) (b : string) :
  In b (top_browsers df) -> In b (browsers df).
Proof.
  unfold top_browsers. fold (ranked_browsers df). intros I.
  eapply Permutation_in; [apply ranked_browsers_keys|].
  rewrite <- (firstn_skipn 14 (ranked_browsers df)), map_app.
  apply in_or_app. left. exact I.
Qed.

Lemma top_browsers_nodup (df : DataFrame) : NoDup (top_browsers df).
Proof.
  unfold top_browsers. fold (ranked_browsers df).
  rewrite <- firstn_map. apply NoDup_firstn.
  eapply Permutation_NoDup;
    [apply Permutation_sym, ranked_browsers_keys | apply unique_nodup].
Qed.

(** X3. On a Dataset with at least one row the selection keeps
    min(14, number of distinct browsers) names, and when the Dataset has
    at most 14 distinct browser names all of them are selected. *)
Theorem top_browsers_complete (df : DataFrame) :
  df <> [] ->
  length (top_browsers df) = Nat.min 14 (length (browsers df))
  /\ ((length (browsers df) <= 14)%nat ->
      forall b, In b (top_browsers df)
                <-> exists r, In r df /\ browser_name r = b).
Proof.
  intros _. split; [apply top_browsers_length|].
  intros L b. split.
  - intros I. apply top_browsers_sub in I. unfold browsers in I.
    apply unique_in, in_map_iff in I. destruct I as (r & E & I). eauto.
  - intros (r & I & <-). apply top_browsers_all; assumption.
Qed.

Lemma top_browsers_complete_witness :
  length (top_browsers three_browsers_dataset)
  = Nat.min 14 (length (browsers three_browsers_dataset))
  /\ ((length (browsers three_browsers_dataset) <= 14)%nat ->
      forall b, In b (top_browsers three_browsers_dataset)
                <-> exists r, In r three_browsers_dataset
                              /\ browser_name r = b).
Proof.
  apply (top_browsers_complete three_browsers_dataset). discriminate.
Defined.

Lemma filter_none {A : Type} (p : A -> bool) (l : list A) :
  (forall x, In x l -> p x = false) -> filter p l = [].
Proof.
  induction l as [|a l IH]; cbn [filter]; intros E; [reflexivity|].
  rewrite (E a) by (left; reflexivity). apply IH.
  intros x I. apply E. right. exact I.
Qed.

Lemma isin_in (values : list string) (s : string) :
  isin values s = true <-> In s values.
Proof. unfold isin. apply existsb_eqb_in. Qed.

Lemma filtered_df_in (df : DataFrame) (r : row) :
  In r (filtered_df df)
  <-> In r df /\ In (device_type r) top_devices
      /\ In (browser_name r) (top_browsers df).
Proof.
  unfold filtered_df. rewrite filter_In, andb_true_iff, !isin_in. tauto.
Qed.

Lemma filtered_df_browsers (df : DataFrame) :
  (length (browsers (filtered_df df)) <= 14)%nat.
Proof.
  apply Nat.le_trans with (length (top_browsers df)).
  - apply NoDup_incl_length; [apply unique_nodup|].
    intros b I. unfold browsers in I. apply unique_in, in_map_iff in I.
    destruct I as (r & <- & I). apply filtered_df_in in I. tauto.
  - rewrite top_browsers_length. apply Nat.le_min_l.
Qed.

(** X4. Every row of the restricted table has a device type among
    desktop, mobile and tablet and a browser among the top browsers of the
    Dataset; restricting the restricted table again changes nothing. *)
Theorem filtered_df_idempotent (df : DataFrame) :
  (forall r, In r (filtered_df df)
             <-> In r df /\ In (device_type r) top_devices
                 /\ In (browser_name r) (top_browsers df))
  /\ filtered_df (filtered_df df) = filtered_df df.
Proof.
  split; [apply filtered_df_in|].
  unfold filtered_df at 1. apply filter_all. intros r I.
  apply andb_true_iff. split; apply isin_in.
  - apply filtered_df_in in I. tauto.
  - apply top_browsers_all; [apply filtered_df_browsers | exact I].
Qed.

(** X5. Rows of other device types never reach the device views: the
    device pivot and the per-device totals of a Dataset are those of its
    desktop, mobile and tablet rows alone. *)
Theorem device_views_ignore_other_devices (df : DataFrame) :
  by_device df = by_device (known_devices df)
  /\ total_by_device df = total_by_device (known_devices df)
  /\ (forall others,
        (forall r, In r others -> ~ In (device_type r) top_devices) ->
        by_device (df ++ others) = by_device df
        /\ total_by_device (df ++ others) = total_by_device df).
Proof.
  assert (I : forall t, known_devices (known_devices t) = known_devices t).
  { intros t. unfold known_devices at 1. apply filter_all. intros r Ir.
    apply known_devices_in in Ir. tauto. }
  assert (B : forall t, by_device t = by_device (known_devices t)).
  { intros t. unfold by_device. fold top_devices.
    fold (known_devices (known_devices t)). fold (known_devices t).
    rewrite I. reflexivity. }
  assert (T : forall t, total_by_device t = total_by_device (known_devices t)).
  { intros t. unfold total_by_device.
    fold (known_devices (known_devices t)). fold (known_devices t).
    rewrite I. reflexivity. }
  split; [apply B|]. split; [apply T|].
  intros others O.
  assert (E : known_devices (df ++ others) = known_devices df).
  { unfold known_devices. rewrite filter_app.
    assert (N : filter (fun r => isin top_devices (device_type r)) others
                = []).
    { apply filter_none. intros r Ir.
      destruct (isin top_devices (device_type r)) eqn:C; [| reflexivity].
      apply isin_in in C. exfalso. exact (O r Ir C). }
    rewrite N. apply app_nil_r. }
  rewrite (B (df ++ others)), (T (df ++ others)), E, <- B, <- T. auto.
Qed.
(* ================================================================== *)
(** * Order of the aggregated rows *)

#[export] Instance KeyOrder_Z : KeyOrder Z.
Proof.
  constructor; simpl.
  - intros a. apply Z.ltb_irrefl.
  - intros a b c. rewrite !Z.ltb_lt. lia.
  - intros a b N. rewrite !Z.ltb_lt. lia.
Qed.

Section SortedKeys.
Context {K : Type} `{KeyLaws K} `{!KeyOrder K}.

Lemma sorted_keys (l : list (group K)) :
  StronglySorted key_lt l -> StronglySorted klt (map gkey l).
Proof.
  induction 1 as [|g l S IH F]; simpl; constructor; [exact IH|].
  rewrite Forall_forall in *. intros k I.
  apply in_map_iff in I. destruct I as (x & <- & I). apply F, I.
Qed.

Lemma groupby_sum_sorted (key : row -> K) (df : DataFrame) :
  StronglySorted klt (map gkey (groupby_sum key df)).
Proof. apply sorted_keys, sort_by_key_sorted, groups_nodup. Qed.

Lemma sorted_filter (p : K -> bool) (l : list K) :
  StronglySorted klt l -> StronglySorted klt (filter p l).
Proof.
  induction 1 as [|k l S IH F]; simpl; [constructor|].
  destruct (p k); [| exact IH]. constructor; [exact IH|].
  rewrite Forall_forall in *. intros x I. apply F.
  apply filter_In in I. tauto.
Qed.

(** Two increasing lists with the same elements are the same list. *)
Lemma sorted_same_elements (l1 l2 : list K) :
  StronglySorted klt l1 -> StronglySorted klt l2 ->
  (forall x, In x l1 <-> In x l2) -> l1 = l2.
Proof.
  intros S1. revert l2.
  induction S1 as [|h1 t1 S1 IH F1]; intros l2 S2 E.
  - destruct l2 as [|h2 t2]; [reflexivity|].
    exfalso. apply (E h2). left. reflexivity.
  - destruct S2 as [|h2 t2 S2 F2].
    + exfalso. apply (E h1). left. reflexivity.
    + rewrite Forall_forall in F1, F2.
      assert (A : forall a b, klt a b -> klt b a -> False).
      { unfold klt. intros a b X Y.
        pose proof (kltb_trans _ _ _ X Y) as C.
        rewrite kltb_irrefl in C. discriminate. }
      assert (Eh : h1 = h2).
      { destruct (proj1 (E h1) (or_introl eq_refl)) as [E1 | I1];
          [congruence|].
        destruct (proj2 (E h2) (or_introl eq_refl)) as [E2 | I2];
          [congruence|].
        exfalso. exact (A _ _ (F1 _ I2) (F2 _ I1)). }
      subst h2. f_equal. apply IH; [exact S2|].
      intros x. split; intros I.
      * destruct (proj1 (E x) (or_intror I)) as [E1 | I1]; [| exact I1].
        subst x. exfalso. exact (A _ _ (F1 _ I) (F1 _ I)).
      * destruct (proj2 (E x) (or_intror I)) as [E1 | I1]; [| exact I1].
        subst x. exfalso. exact (A _ _ (F2 _ I) (F2 _ I)).
Qed.

End SortedKeys.

Lemma klt_Z (l : list Z) : StronglySorted klt l <-> StronglySorted Z.lt l.
Proof.
  split; induction 1 as [|a l S IH F]; constructor; try exact IH;
    (eapply Forall_impl; [| exact F]); intros b; unfold klt; simpl;
    apply Z.ltb_lt.
Qed.

(** X6. The daily series and the slice-and-dice series list their dates
    in strictly increasing order. *)
Theorem aggregated_dates_increase (df : DataFrame)
  (device_option browser_option : option string) :
  StronglySorted Z.lt (map akey (by_day df))
  /\ StronglySorted Z.lt
       (map akey (slice_dice_df df device_option browser_option)).
Proof.
  unfold by_day, slice_dice_df. rewrite !with_pct_keys.
  split; apply klt_Z, groupby_sum_sorted.
Qed.

Lemma Permutation_filter_eq {A : Type} (p : A -> bool) (l l' : list A) :
  Permutation l l' -> Permutation (filter p l) (filter p l').
Proof.
  induction 1; simpl.
  - constructor.
  - destruct (p x); [constructor|]; assumption.
  - destruct (p x), (p y); try apply Permutation_refl; constructor.
  - eapply Permutation_trans; eauto.
Qed.

Lemma filtered_df_perm (df df' : DataFrame) :
  Permutation df df' -> Permutation (filtered_df df) (filtered_df df').
Proof.
  intros P. unfold filtered_df.
  rewrite (top_browsers_row_order df df' P).
  apply Permutation_filter_eq, P.
Qed.

(** X7. The aggregated views do not depend on the order in which the
    Dataset lists its rows. *)
Theorem aggregation_row_order (df df' : DataFrame)
  (device_option browser_option : option string) :
  Permutation df df' ->
  by_day df' = by_day df
  /\ total_by_device df' = total_by_device df
  /\ slice_dice_df df' device_option browser_option
     = slice_dice_df df device_option browser_option.
Proof.
  intros P. unfold by_day, total_by_device, slice_dice_df.
  rewrite (groupby_sum_row_order date df df' P).
  rewrite (groupby_sum_row_order device_type _ _
             (Permutation_filter_eq _ _ _ P)).
  rewrite !filter_df_by_options_passes.
  rewrite (groupby_sum_row_order date _ _
             (Permutation_filter_eq (passes device_option browser_option)
                _ _ (filtered_df_perm df df' P))).
  auto.
Qed.

Lemma aggregation_row_order_witness :
  by_day (rev example_dataset) = by_day example_dataset
  /\ total_by_device (rev example_dataset) = total_by_device example_dataset
  /\ slice_dice_df (rev example_dataset) (Some "mobile"%string) None
     = slice_dice_df example_dataset (Some "mobile"%string) None.
Proof.
  apply (aggregation_row_order example_dataset (rev example_dataset)).
  apply Permutation_rev.
Defined.

(** X8. The per-device totals have one row per device type present among
    desktop, mobile and tablet, in that order; in particular at most three
    rows, and exactly those three when each type occurs. *)
Theorem total_by_device_rows (df : DataFrame) :
  map akey (total_by_device df) = devices_present df
  /\ (length (total_by_device df) <= 3)%nat
  /\ ((forall dev, In dev top_devices ->
         exists r, In r df /\ device_type r = dev) ->
      map akey (total_by_device df) = top_devices).
Proof.
  assert (E : map akey (total_by_device df) = devices_present df).
  { unfold total_by_device. rewrite with_pct_keys.
    apply sorted_same_elements.
    - apply groupby_sum_sorted.
    - apply sorted_filter. repeat constructor.
    - intros dev. unfold devices_present.
      rewrite filter_In, existsb_exists, in_map_iff. split.
      + intros (g & <- & I). apply groupby_sum_in in I.
        destruct I as [(r & I & Er) _]. rewrite <- Er.
        apply filter_In in I. destruct I as [I D]. apply isin_in in D.
        split; [exact D|]. exists r. split; [exact I|].
        apply String.eqb_refl.
      + intros [D (r & I & Er)]. apply String.eqb_eq in Er.
        exists (group_of device_type dev
                  (filter (fun r => isin top_devices (device_type r)) df)).
        split; [reflexivity|]. apply groupby_sum_in.
        split; [| reflexivity]. exists r. split; [| exact Er].
        apply filter_In. split; [exact I|]. apply isin_in. rewrite Er.
        exact D. }
  split; [exact E|]. split.
  - rewrite <- (length_map akey), E. unfold devices_present.
    apply (filter_length_le _ top_devices).
  - intros A. rewrite E. unfold devices_present. apply filter_all.
    intros dev D. destruct (A dev D) as (r & I & Er).
    apply existsb_exists. exists r. split; [exact I|].
    apply String.eqb_eq, Er.
Qed.
(* ================================================================== *)
(** * Outcomes of the trend estimator *)

Lemma fold_max_in (t : list Z) (h : Z) : In (fold_left Z.max t h) (h :: t).
Proof.
  revert h. induction t as [|a t IH]; intros h; simpl; [auto|].
  destruct (IH (Z.max h a)) as [E | I]; [| auto].
  rewrite <- E. destruct (Z.max_spec h a) as [[_ M] | [_ M]]; rewrite M; auto.
Qed.

Lemma fold_min_in (t : list Z) (h : Z) : In (fold_left Z.min t h) (h :: t).
Proof.
  revert h. induction t as [|a t IH]; intros h; simpl; [auto|].
  destruct (IH (Z.min h a)) as [E | I]; [| auto].
  rewrite <- E. destruct (Z.min_spec h a) as [[_ M] | [_ M]]; rewrite M; auto.
Qed.

(** Maximum and minimum coincide exactly on a list of equal values. *)
Lemma zmax_eq_zmin (l : list Z) :
  zmax l = zmin l <-> forall a b, In a l -> In b l -> a = b.
Proof.
  split.
  - intros E a b Ia Ib.
    pose proof (zmin_le_zmax l a Ia). pose proof (zmin_le_zmax l b Ib). lia.
  - intros A. destruct l as [|h t]; [reflexivity|].
    apply A; [apply fold_max_in | apply fold_min_in].
Qed.

Lemma ordinals_equal (dates : list Z) :
  (forall a b, In a (map toordinal dates) -> In b (map toordinal dates) ->
               a = b)
  <-> forall d d', In d dates -> In d' dates -> d = d'.
Proof.
  split.
  - intros A d d' I I'.
    assert (E : toordinal d = toordinal d')
      by (apply A; apply in_map; assumption).
    unfold toordinal in E. lia.
  - intros A a b Ia Ib. apply in_map_iff in Ia, Ib.
    destruct Ia as (d & <- & Id), Ib as (d' & <- & Id').
    f_equal. apply A; assumption.
Qed.

(** When the trend estimator raises, and what it returns otherwise. *)
Lemma line_of_best_fit_raises_iff (dates : list Z) (y : list float64) :
  raises (line_of_best_fit dates y) = true
  <-> dates = [] \/ y = []
      \/ ((1 < length dates)%nat
          /\ forall d d', In d dates -> In d' dates -> d = d')
      \/ length dates <> length y.
Proof.
  unfold line_of_best_fit, linregress. rewrite length_map.
  destruct dates as [|d0 dates'] eqn:Ed; [simpl; tauto|].
  destruct y as [|y0 y'] eqn:Ey; [simpl; tauto|].
  rewrite <- Ed, <- Ey.
  assert (N1 : (length dates =? 0)%nat = false) by (rewrite Ed; reflexivity).
  assert (N2 : (length y =? 0)%nat = false) by (rewrite Ey; reflexivity).
  rewrite N1, N2. cbn [orb].
  destruct ((zmax (map toordinal dates) =? zmin (map toordinal dates))
            && (1 <? length dates)%nat) eqn:C.
  - cbn [bind raises]. split; [intros _ | reflexivity].
    apply andb_true_iff in C. destruct C as [C1 C2].
    apply Z.eqb_eq in C1.
    pose proof (proj1 (ordinals_equal dates)
                  (proj1 (zmax_eq_zmin _) C1)) as A.
    apply Nat.ltb_lt in C2. right. right. left. auto.
  - assert (NC : ~ ((1 < length dates)%nat
                    /\ forall d d', In d dates -> In d' dates -> d = d')).
    { intros [L A].
      pose proof (proj2 (Z.eqb_eq _ _)
                    (proj2 (zmax_eq_zmin _)
                       (proj2 (ordinals_equal dates) A))) as B.
      apply Nat.ltb_lt in L. rewrite B, L in C. discriminate. }
    destruct (length dates =? length y)%nat eqn:L; cbn [negb bind raises].
    + apply Nat.eqb_eq in L. split; [discriminate|].
      intros [E | [E | [E | E]]]; try contradiction;
        rewrite E in *; discriminate.
    + apply Nat.eqb_neq in L. split; [| reflexivity]. auto.
Qed.

Lemma line_of_best_fit_length (dates : list Z) (y vals : list float64) :
  line_of_best_fit dates y = Ok vals ->
  length vals = length dates /\ length dates = length y /\ dates <> [].
Proof.
  unfold line_of_best_fit, linregress. rewrite length_map.
  destruct ((length dates =? 0)%nat || (length y =? 0)%nat) eqn:E0;
    [discriminate|].
  destruct ((zmax (map toordinal dates) =? zmin (map toordinal dates))
            && (1 <? length dates)%nat); [discriminate|].
  destruct (length dates =? length y)%nat eqn:L; [| discriminate].
  cbn [negb bind]. intros [= <-]. rewrite !length_map.
  apply Nat.eqb_eq in L. split; [reflexivity|]. split; [exact L|].
  intros ->. discriminate.
Qed.

(** X9. The trend estimator raises exactly when there is no date or no
    value, when there are at least two dates and all are the same, or when
    dates and values differ in number; whenever it returns, it returns one
    fitted value per date, hence never an empty list (the list the plot
    tests before drawing the trend line). *)
Theorem line_of_best_fit_outcome (dates : list Z) (y : list float64) :
  (raises (line_of_best_fit dates y) = true
   <-> dates = [] \/ y = []
       \/ ((1 < length dates)%nat
           /\ forall d d', In d dates -> In d' dates -> d = d')
       \/ length dates <> length y)
  /\ (forall vals, line_of_best_fit dates y = Ok vals ->
        length vals = length dates /\ vals <> []).
Proof.
  split; [apply line_of_best_fit_raises_iff|].
  intros vals E.
  destruct (line_of_best_fit_length dates y vals E) as (L & _ & N).
  split; [exact L|]. intros ->. apply N.
  destruct dates; [reflexivity | discriminate].
Qed.

Lemma fadd_nan_r (x : float64) : fadd x NaN = NaN.
Proof. destruct x; reflexivity. Qed.

Lemma fold_fadd_nan (l : list float64) : fold_left fadd l NaN = NaN.
Proof. induction l as [|x l IH]; simpl; [reflexivity | exact IH]. Qed.

Lemma fsum_nan (l : list float64) (a : float64) :
  In NaN l -> fold_left fadd l a = NaN.
Proof.
  revert a. induction l as [|x l IH]; intros a; simpl; [tauto|].
  intros [-> | I]; [| apply IH, I].
  rewrite fadd_nan_r. apply fold_fadd_nan.
Qed.

(** One NaN among the values makes every fitted value NaN. *)
Lemma fit_of_nan (dates : list Z) (y vals : list float64) :
  In NaN y ->
  line_of_best_fit dates y = Ok vals ->
  forall v, In v vals -> v = NaN.
Proof.
  intros N. unfold line_of_best_fit, linregress.
  destruct (_ || _); [discriminate|].
  destruct (_ && _); [discriminate|].
  destruct (negb _); [discriminate|].
  cbn [bind fst snd]. intros [= <-] v I.
  apply in_map_iff in I. destruct I as (xi & <- & _).
  assert (M : mean y = NaN).
  { unfold mean, fsum. rewrite (fsum_nan y _ N). reflexivity. }
  rewrite M. cbn [fsub fadd]. apply fadd_nan_r.
Qed.

Lemma fmul_nan_r (x : float64) : fmul x NaN = NaN.
Proof. destruct x; reflexivity. Qed.

(** A sum that comes out finite has finite terms only; a sum that comes
    out infinite has a term of that sign. *)
Lemma fold_fadd_cases (l : list float64) (a : float64) :
  match fold_left fadd l a with
  | Fin _ => is_finite a = true /\ forall v, In v l -> is_finite v = true
  | PInf => a = PInf \/ In PInf l
  | NInf => a = NInf \/ In NInf l
  | NaN => True
  end.
Proof.
  revert a. induction l as [|x l IH]; intros a; simpl.
  - destruct a; auto.
  - specialize (IH (fadd a x)).
    destruct (fold_left fadd l (fadd a x)) as [q| | |]; [| | | exact I].
    + destruct IH as [F A]. destruct a, x; try discriminate.
      split; [reflexivity|]. intros v [<- | Iv]; [reflexivity | auto].
    + destruct IH as [E | Il]; [| auto].
      destruct a, x; try discriminate; auto.
    + destruct IH as [E | Il]; [| auto].
      destruct a, x; try discriminate; auto.
Qed.

(** With a value that is not finite among them, some value has no
    deviation from the mean. *)
Lemma deviation_nan (y : list float64) :
  (exists v, In v y /\ is_finite v = false) ->
  exists v, In v y /\ fsub v (mean y) = NaN.
Proof.
  intros (v & Iv & Nv). unfold mean, fsum.
  pose proof (fold_fadd_cases y (Fin 0%Qc)) as C.
  rewrite of_int_Zq.
  assert (S : sgn (Zq (Z.of_nat (length y))) <> Lt).
  { rewrite sgn_Zq. destruct (length y); simpl; discriminate. }
  destruct (fold_left fadd y (Fin 0%Qc)) as [q| | |].
  - destruct C as [_ A]. rewrite (A v Iv) in Nv. discriminate.
  - destruct C as [C | C]; [discriminate|]. exists PInf. split; [exact C|].
    cbn [fdiv]. destruct (sgn (Zq (Z.of_nat (length y))));
      try reflexivity. contradiction.
  - destruct C as [C | C]; [discriminate|]. exists NInf. split; [exact C|].
    cbn [fdiv]. destruct (sgn (Zq (Z.of_nat (length y))));
      try reflexivity. contradiction.
  - exists v. split; [exact Iv|]. destruct v; reflexivity.
Qed.

Lemma In_nth_error_lt {A : Type} (x : A) (l : list A) :
  In x l -> exists i, (i < length l)%nat /\ nth_error l i = Some x.
Proof.
  intros I. destruct (In_nth_error l x I) as (i & N). exists i.
  split; [| exact N]. apply nth_error_Some. congruence.
Qed.

(** X10. A value that is not a finite number (NaN or an infinity) among
    the inputs makes every fitted value NaN. *)
Theorem line_of_best_fit_non_finite (dates : list Z)
  (y vals : list float64) :
  (exists v, In v y /\ is_finite v = false) ->
  line_of_best_fit dates y = Ok vals ->
  forall v, In v vals -> v = NaN.
Proof.
  intros N. unfold line_of_best_fit, linregress.
  destruct (_ || _); [discriminate|].
  destruct (_ && _); [discriminate|].
  rewrite length_map.
  destruct (length dates =? length y)%nat eqn:L; [| discriminate].
  apply Nat.eqb_eq in L.
  cbn [negb bind fst snd]. intros [= <-] v I.
  apply in_map_iff in I. destruct I as (xi & <- & _).
  destruct (deviation_nan y N) as (w & Iw & Dw).
  destruct (In_nth_error_lt w y Iw) as (j & Lj & Nj).
  set (xf := map of_int (map toordinal dates)).
  assert (Lx : (j < length xf)%nat)
    by (unfold xf; rewrite !length_map, L; exact Lj).
  destruct (nth_error xf j) as [xj|] eqn:Nx;
    [| apply nth_error_None in Nx; lia].
  assert (P : In NaN (map2 fmul (map (fun v => fsub v (mean xf)) xf)
                               (map (fun v => fsub v (mean y)) y))).
  { apply (nth_error_In _ j).
    rewrite map2_nth_error, !nth_error_map, Nx, Nj. cbn [option_map].
    rewrite Dw, fmul_nan_r. reflexivity. }
  unfold cov1 at 1. unfold fsum at 1. rewrite (fsum_nan _ _ P).
  reflexivity.
Qed.

Lemma line_of_best_fit_non_finite_witness :
  exists vals,
    line_of_best_fit [to_datetime 2021 1 1; to_datetime 2021 1 2]
                     [PInf; of_int 2] = Ok vals
    /\ Forall (fun v => v = NaN) vals.
Proof.
  exists [NaN; NaN]. split; [reflexivity|].
  apply Forall_forall.
  apply (line_of_best_fit_non_finite
           [to_datetime 2021 1 1; to_datetime 2021 1 2] [PInf; of_int 2]).
  - exists PInf. split; [left |]; reflexivity.
  - reflexivity.
Defined.

(* ================================================================== *)
(** * The trend lines of the script *)

Lemma NoDup_two_distinct {A : Type} (l : list A) :
  NoDup l -> (1 < length l)%nat ->
  ~ forall a b, In a l -> In b l -> a = b.
Proof.
  intros ND L A'. destruct l as [|a [|b l]]; simpl in L; try lia.
  inversion ND as [|? ? NI _]; subst. apply NI.
  rewrite (A' a b) by (simpl; auto). left. reflexivity.
Qed.

(** Over distinct dates with one value each, the trend estimator raises
    only on the empty series. *)
Lemma line_of_best_fit_series (dates : list Z) (y : list float64) :
  NoDup dates -> length dates = length y ->
  (raises (line_of_best_fit dates y) = true <-> dates = [])
  /\ (dates <> [] ->
      exists vals, line_of_best_fit dates y = Ok vals
                   /\ length vals = length dates).
Proof.
  intros ND L.
  assert (R : raises (line_of_best_fit dates y) = true <-> dates = []).
  { rewrite line_of_best_fit_raises_iff. split; [| auto].
    intros [E | [E | [[L1 A] | E]]].
    - exact E.
    - subst y. destruct dates; [reflexivity | discriminate].
    - exfalso. exact (NoDup_two_distinct dates ND L1 A).
    - contradiction. }
  split; [exact R|]. intros N.
  destruct (line_of_best_fit dates y) as [vals|e] eqn:E.
  - exists vals. split; [reflexivity|].
    apply (line_of_best_fit_length dates y vals E).
  - exfalso. apply N, R. reflexivity.
Qed.

Lemma with_pct_length {K : Type} (l : list (group K)) :
  length (with_pct l) = length l.
Proof. unfold with_pct. apply length_map. Qed.

Lemma groupby_sum_empty_iff {K : Type} `{KeyLaws K} (key : row -> K)
  (df : DataFrame) :
  groupby_sum key df = [] <-> df = [].
Proof.
  split; [| intros ->; reflexivity].
  intros E. destruct df as [|r df]; [reflexivity|]. exfalso.
  assert (I : In (group_of key (key r) (r :: df))
                 (groupby_sum key (r :: df))).
  { apply groupby_sum_in. split; [| reflexivity].
    exists r. split; [left |]; reflexivity. }
  rewrite E in I. exact I.
Qed.

(** The trend line over an aggregated series. *)
Lemma aggregated_series_fit (rows : DataFrame) :
  let s := with_pct (groupby_sum date rows) in
  (raises (line_of_best_fit (map akey s) (map cookie_support_pct s)) = true
   <-> rows = [])
  /\ (rows <> [] ->
      exists vals,
        line_of_best_fit (map akey s) (map cookie_support_pct s) = Ok vals
        /\ length vals = length s).
Proof.
  intros s.
  assert (ND : NoDup (map akey s)).
  { unfold s. rewrite with_pct_keys. apply groupby_sum_nodup. }
  assert (L : length (map akey s) = length (map cookie_support_pct s))
    by (rewrite !length_map; reflexivity).
  assert (E : map akey s = [] <-> rows = []).
  { unfold s. rewrite with_pct_keys. split.
    - intros M. apply map_eq_nil in M.
      apply (groupby_sum_empty_iff date), M.
    - intros ->. reflexivity. }
  destruct (line_of_best_fit_series _ _ ND L) as [R O]. split.
  - rewrite R. exact E.
  - intros N. destruct O as (vals & F & Lv).
    + intros M. apply N, E, M.
    + exists vals. split; [exact F|]. rewrite Lv. apply length_map.
Qed.

(** X11. The trend line of the daily series (line 128) raises exactly on
    the empty Dataset; on any other Dataset it has one fitted value per
    distinct date. *)
Theorem best_fit_cookie_support_outcome (df : DataFrame) :
  (raises (best_fit_cookie_support df) = true <-> df = [])
  /\ (df <> [] ->
      exists vals, best_fit_cookie_support df = Ok vals
                   /\ length vals = length (by_day df)).
Proof. apply (aggregated_series_fit df). Qed.

(** X12. The trend line of the slice-and-dice series (line 199) raises
    exactly when the filters leave no row of the restricted table;
    otherwise it has one fitted value per date of the series. *)
Theorem best_fit_slice_dice_outcome (df : DataFrame)
  (device_option browser_option : option string) :
  (raises (best_fit_slice_dice df device_option browser_option) = true
   <-> filter_df_by_options (filtered_df df) device_option browser_option
       = [])
  /\ (filter_df_by_options (filtered_df df) device_option browser_option
      <> [] ->
      exists vals,
        best_fit_slice_dice df device_option browser_option = Ok vals
        /\ length vals
           = length (slice_dice_df df device_option browser_option)).
Proof.
  apply (aggregated_series_fit
           (filter_df_by_options (filtered_df df)
              device_option browser_option)).
Qed.

(* ================================================================== *)
(** * Shape of the pivot frames *)

Lemma length_map2 {A B C : Type} (f : A -> B -> C) (l : list A)
  (m : list B) :
  length (map2 f l m) = Nat.min (length l) (length m).
Proof. unfold map2. rewrite length_map. apply length_combine. Qed.

Lemma pcolumn_length (df : DataFrame) (col : row -> string) (c : string) :
  length (to_floats (pcolumn df col c)) = length (pidx df col).
Proof.
  unfold pcolumn, unstack_column.
  destruct (all_present df col); cbn [to_floats]; rewrite !length_map;
    reflexivity.
Qed.

Lemma series_add_length (a b : Series) :
  length (to_floats (series_add a b))
  = Nat.min (length (to_floats a)) (length (to_floats b)).
Proof.
  destruct a as [la | la], b as [lb | lb]; cbn [series_add to_floats];
    rewrite ?length_map, !length_map2, ?length_map; reflexivity.
Qed.

Lemma ratio_length (a b : Series) :
  length (to_floats (series_mul_int (series_truediv a b) 100))
  = Nat.min (length (to_floats a)) (length (to_floats b)).
Proof.
  unfold series_truediv, series_mul_int. cbn [to_floats].
  rewrite length_map. apply length_map2.
Qed.

Lemma sum_axis1_length (f : Frame) :
  length (to_floats (sum_axis1 f)) = length (index f).
Proof.
  unfold sum_axis1. destruct (columns f) as [|p cols].
  - cbn [to_floats]. rewrite length_map. apply length_seq.
  - destruct (forallb _ _); cbn [to_floats]; rewrite !length_map;
      apply length_seq.
Qed.

Lemma pivot_index (df : DataFrame) (col : row -> string) :
  index (pivot_table df col) = pidx df col.
Proof. rewrite pivot_table_cells. reflexivity. Qed.

Lemma pidx_nodup (df : DataFrame) (col : row -> string) :
  NoDup (pidx df col).
Proof. apply sorted_unique_nodup. Qed.

(** The share column of the device pivot. *)
Lemma device_frame_pct (df : DataFrame) :
  getattr (device_frame df) "mobile_tablet_pct"
  = Ok (series_mul_int
          (series_truediv
             (series_add (pcolumn (known_devices df) device_type "mobile")
                         (pcolumn (known_devices df) device_type "tablet"))
             (sum_axis1 (pivot_table (known_devices df) device_type)))
          100).
Proof.
  unfold getattr, device_frame. cbn [columns].
  rewrite lookup_set_column.
  change (String.eqb "mobile_tablet_pct" "mobile_tablet_pct") with true.
  reflexivity.
Qed.

Lemma device_frame_index (df : DataFrame) :
  index (device_frame df) = pidx (known_devices df) device_type.
Proof. unfold device_frame. cbn [index]. apply pivot_index. Qed.

Lemma device_pct_length (df : DataFrame) :
  length (to_floats (series_mul_int
          (series_truediv
             (series_add (pcolumn (known_devices df) device_type "mobile")
                         (pcolumn (known_devices df) device_type "tablet"))
             (sum_axis1 (pivot_table (known_devices df) device_type)))
          100))
  = length (pidx (known_devices df) device_type).
Proof.
  rewrite ratio_length, series_add_length, !pcolumn_length,
    sum_axis1_length, pivot_index.
  rewrite !Nat.min_id. reflexivity.
Qed.

(** A date of the device pivot without a mobile row or without a tablet
    row holds NaN in the share column. *)
Lemma device_pct_nan (df : DataFrame) (d : Timestamp) :
  In "mobile"%string (pnames (known_devices df) device_type) ->
  In "tablet"%string (pnames (known_devices df) device_type) ->
  In d (pidx (known_devices df) device_type) ->
  ~ (has_rows df d "mobile" /\ has_rows df d "tablet") ->
  In NaN (to_floats (series_mul_int
          (series_truediv
             (series_add (pcolumn (known_devices df) device_type "mobile")
                         (pcolumn (known_devices df) device_type "tablet"))
             (sum_axis1 (pivot_table (known_devices df) device_type)))
          100)).
Proof.
  intros Im It Id NB.
  destruct (position_in d _ Id) as (i & _ & N).
  assert (L : (i < length (pidx (known_devices df) device_type))%nat).
  { apply nth_error_Some. congruence. }
  destruct (sum_axis1_at (known_devices df) device_type i L) as (q & Nt).
  pose proof (pcolumn_at (known_devices df) device_type _ d i Im N) as Nm.
  pose proof (pcolumn_at (known_devices df) device_type _ d i It N) as Ntb.
  destruct (series_add_at _ _ i _ _ Nm Ntb) as (z & Nz & Z).
  assert (Zn : z = NaN).
  { destruct (cell (known_devices df) device_type d "mobile") eqn:Cm;
      [destruct (cell (known_devices df) device_type d "tablet") eqn:Ct |];
      try exact Z.
    exfalso. apply NB.
    split; apply cell_known; try reflexivity; congruence. }
  subst z. apply (nth_error_In _ i).
  rewrite (ratio_at _ _ i NaN (Fin q) Nz Nt). reflexivity.
Qed.

(** X13. The trend line of the mobile and tablet share (line 154) is
    computed exactly when the Dataset has a mobile row and a tablet row:
    once the device pivot exists the estimator raises nothing.  It has one
    fitted value per date of the pivot, and all of them are NaN as soon as
    one date of the pivot lacks a mobile row or lacks a tablet row. *)
Theorem best_fit_mobile_outcome (df : DataFrame) :
  (raises (best_fit_mobile df) = false
   <-> (exists r, In r df /\ device_type r = "mobile"%string)
       /\ (exists r, In r df /\ device_type r = "tablet"%string))
  /\ raises (best_fit_mobile df) = raises (by_device df)
  /\ (forall vals, best_fit_mobile df = Ok vals ->
      exists f, by_device df = Ok f
        /\ length vals = length (index f)
        /\ ((exists d, In d (index f)
                       /\ ~ (has_rows df d "mobile"
                             /\ has_rows df d "tablet")) ->
            forall v, In v vals -> v = NaN)).
Proof.
  pose proof (has_column_known df "mobile" eq_refl) as Hm.
  pose proof (has_column_known df "tablet" eq_refl) as Ht.
  unfold best_fit_mobile. rewrite by_device_eq.
  destruct (existsb (String.eqb "mobile") _) eqn:Em;
    [destruct (existsb (String.eqb "tablet") _) eqn:Et |].
  2: { split; [| split; [reflexivity | discriminate]].
       split; [discriminate|]. intros [_ T]. apply Ht in T. discriminate. }
  2: { split; [| split; [reflexivity | discriminate]].
       split; [discriminate|]. intros [M _]. apply Hm in M. discriminate. }
  cbn [bind]. rewrite device_frame_pct. cbn [bind].
  rewrite device_frame_index.
  assert (Im : In "mobile"%string (pnames (known_devices df) device_type))
    by (apply existsb_eqb_in, Em).
  assert (It : In "tablet"%string (pnames (known_devices df) device_type))
    by (apply existsb_eqb_in, Et).
  destruct (line_of_best_fit_series _ _
              (pidx_nodup (known_devices df) device_type)
              (eq_sym (device_pct_length df))) as [R O].
  assert (NE : pidx (known_devices df) device_type <> []).
  { destruct (proj1 Hm eq_refl) as (r & I & E).
    assert (Id : In (date r) (pidx (known_devices df) device_type)).
    { apply pidx_in. exists r. split; [| reflexivity].
      apply known_devices_in. rewrite E. auto. }
    intros E0. rewrite E0 in Id. exact Id. }
  destruct (O NE) as (vals0 & F & Lv). rewrite F. cbn [raises].
  split; [| split].
  - split; [intros _ | reflexivity].
    split; [apply Hm | apply Ht]; reflexivity.
  - reflexivity.
  - intros vals [= <-]. exists (device_frame df).
    split; [reflexivity|]. rewrite device_frame_index.
    split; [exact Lv|].
    intros (d & Id & NB).
    apply (fit_of_nan _ _ vals0 (device_pct_nan df d Im It Id NB) F).
Qed.

(* ================================================================== *)
(** * The Chrome share *)

(** The frame of [by_browser], once the Chrome column exists. *)
Lemma by_browser_eq (df : DataFrame) :
  by_browser df
  = if existsb (String.eqb "Chrome") (pnames df browser_name)
    then Ok (mk_frame (pidx df browser_name)
           (set_column "chrome_pct"
              (series_mul_int
                 (series_truediv (pcolumn df browser_name "Chrome")
                    (sum_axis1 (pivot_table df browser_name))) 100)
              (set_column "total" (sum_axis1 (pivot_table df browser_name))
                 (columns (pivot_table df browser_name)))))
    else Raise (AttributeError "Chrome").
Proof.
  unfold by_browser, getattr, setitem. cbn [columns index].
  rewrite !lookup_set_column.
  change (String.eqb "Chrome" "total") with false.
  change (String.eqb "total" "total") with true. cbv iota.
  rewrite pivot_lookup, pivot_index.
  destruct (existsb (String.eqb "Chrome") (pnames df browser_name));
    reflexivity.
Qed.

(** X14. When the browser pivot is computed, its index holds the dates of
    the Dataset, and at every such date: total is a finite number; the
    Chrome column is NaN when the date has no Chrome row and a finite
    number when it has one; chrome_pct is NaN when the date has no Chrome
    row, and with a Chrome row it is NaN exactly when Chrome and total are
    both 0. *)
Theorem by_browser_chrome_pct (df : DataFrame) (f : Frame) :
  by_browser df = Ok f ->
  (forall d, In d (index f) <-> exists r, In r df /\ date r = d)
  /\ (forall d, In d (index f) ->
      exists chrome total chrome_pct,
        at_date f "Chrome" d = Some chrome
        /\ at_date f "total" d = Some total
        /\ at_date f "chrome_pct" d = Some chrome_pct
        /\ is_finite total = true
        /\ ((forall r, In r df -> date r = d ->
               browser_name r <> "Chrome"%string) ->
            chrome = NaN /\ chrome_pct = NaN)
        /\ ((exists r, In r df /\ date r = d
                       /\ browser_name r = "Chrome"%string) ->
            is_finite chrome = true
            /\ (is_nan chrome_pct = true
                <-> chrome = of_int 0 /\ total = of_int 0))).
Proof.
  rewrite by_browser_eq.
  destruct (existsb (String.eqb "Chrome") (pnames df browser_name)) eqn:Ec;
    [| discriminate].
  remember (pivot_table df browser_name) as pt eqn:Ept.
  intros [= <-]. cbn [index]. split; [intros d; apply pidx_in|].
  intros d Id.
  destruct (position_in d _ Id) as (i & P & N).
  assert (L : (i < length (pidx df browser_name))%nat).
  { apply nth_error_Some. congruence. }
  destruct (sum_axis1_at df browser_name i L) as (q & Nt).
  rewrite <- Ept in Nt.
  assert (Ic : In "Chrome"%string (pnames df browser_name))
    by (apply existsb_eqb_in, Ec).
  pose proof (pcolumn_at df browser_name _ d i Ic N) as Nc.
  unfold at_date. cbn [index columns]. rewrite P, !lookup_set_column.
  change (String.eqb "Chrome" "chrome_pct") with false.
  change (String.eqb "Chrome" "total") with false.
  change (String.eqb "total" "chrome_pct") with false.
  change (String.eqb "total" "total") with true.
  change (String.eqb "chrome_pct" "chrome_pct") with true.
  cbv iota.
  replace (lookup "Chrome" (columns pt))
    with (Some (pcolumn df browser_name "Chrome"))
    by (rewrite Ept, pivot_lookup, Ec; reflexivity).
  pose proof (ratio_at _ _ i _ (Fin q) Nc Nt) as Nr.
  unfold series_truediv, series_mul_int in Nr.
  rewrite Nr, Nc, Nt.
  eexists. eexists. eexists.
  split; [reflexivity|]. split; [reflexivity|]. split; [reflexivity|].
  split; [reflexivity|].
  pose proof (cell_some_iff df browser_name d "Chrome") as C.
  split.
  - intros NC.
    destruct (cell df browser_name d "Chrome") as [z|] eqn:Ez.
    + exfalso. destruct (proj1 C) as (r & I & Ed & Eb); [discriminate|].
      exact (NC r I Ed Eb).
    + split; reflexivity.
  - intros (r & I & Ed & Eb).
    destruct (cell df browser_name d "Chrome") as [z|] eqn:Ez.
    + split; [reflexivity|]. cbn [cell_float]. rewrite of_int_Zq.
      apply ratio_pct_fin.
    + exfalso. apply (proj2 C); [| reflexivity]. exists r. auto.
Qed.

Lemma by_browser_chrome_pct_witness :
  (forall d, In d [to_datetime 2021 1 1; to_datetime 2021 1 2]
             <-> exists r, In r chrome_safari_dataset /\ date r = d)
  /\ at_date
       (mk_frame [to_datetime 2021 1 1; to_datetime 2021 1 2]
          [("Chrome"%string, FltCol [of_int 150; NaN]);
           ("Safari"%string, FltCol [NaN; of_int 20]);
           ("total"%string, FltCol [of_int 150; of_int 20]);
           ("chrome_pct"%string, FltCol [of_int 100; NaN])])
       "chrome_pct" (to_datetime 2021 1 2)
     = Some NaN.
Proof.
  split; [| reflexivity].
  apply (by_browser_chrome_pct chrome_safari_dataset
           (mk_frame [to_datetime 2021 1 1; to_datetime 2021 1 2]
              [("Chrome"%string, FltCol [of_int 150; NaN]);
               ("Safari"%string, FltCol [NaN; of_int 20]);
               ("total"%string, FltCol [of_int 150; of_int 20]);
               ("chrome_pct"%string, FltCol [of_int 100; NaN])])).
  vm_compute. float_eq.
Defined.

(* ================================================================== *)
(** * The total column of the pivots *)

Lemma zsum_nonneg (l : list Z) : (forall z, In z l -> 0 <= z) -> 0 <= zsum l.
Proof.
  induction l as [|a l IH]; simpl; intros A; [lia|].
  pose proof (A a (or_introl eq_refl)).
  assert (0 <= zsum l) by (apply IH; intros z I; apply A; auto). lia.
Qed.

Lemma zsum_filter_le (f : row -> Z) (p : row -> bool) (df : DataFrame) :
  (forall r, In r df -> 0 <= f r) ->
  0 <= zsum (map f (filter p df)) <= zsum (map f df).
Proof.
  induction df as [|r df IH]; simpl; intros A; [lia|].
  pose proof (A r (or_introl eq_refl)).
  assert (0 <= zsum (map f (filter p df)) <= zsum (map f df))
    by (apply IH; intros x I; apply A; auto).
  destruct (p r); simpl; lia.
Qed.

Lemma small_counts_filter (p : row -> bool) (df : DataFrame) :
  small_counts df -> small_counts (filter p df).
Proof.
  intros [A B]. split.
  - intros r I. apply filter_In in I. apply A, I.
  - pose proof (zsum_filter_le traffic p df A). lia.
Qed.

Lemma sum64_filter (p : row -> bool) (df : DataFrame) :
  small_counts df ->
  sum64 (map traffic (filter p df)) = zsum (map traffic (filter p df)).
Proof.
  intros [A B]. apply sum64_exact.
  pose proof (zsum_filter_le traffic p df A). unfold in_range. lia.
Qed.

Lemma cell_int_rows (df : DataFrame) (col : row -> string)
  (d : Timestamp) (c : string) :
  small_counts df ->
  cell_int (cell df col d c) = zsum (map traffic (cell_rows df col d c)).
Proof.
  intros NO. unfold cell.
  pose proof (sum64_filter
    (fun r => Z.eqb (date r) d && String.eqb (col r) c) df NO) as E.
  fold (cell_rows df col d c) in E.
  destruct (cell_rows df col d c); [reflexivity | exact E].
Qed.

Lemma zsum_other (x : string) (t : Z) (g : string -> Z)
  (names : list string) :
  ~ In x names ->
  zsum (map (fun c => if String.eqb x c then t + g c else g c) names)
  = zsum (map g names).
Proof.
  induction names as [|n names IH]; simpl; intros NI; [reflexivity|].
  destruct (String.eqb x n) eqn:E.
  - apply String.eqb_eq in E. exfalso. apply NI. auto.
  - rewrite IH by tauto. reflexivity.
Qed.

Lemma zsum_one (x : string) (t : Z) (g : string -> Z)
  (names : list string) :
  NoDup names -> In x names ->
  zsum (map (fun c => if String.eqb x c then t + g c else g c) names)
  = t + zsum (map g names).
Proof.
  induction 1 as [|n names NI ND IH]; simpl; [tauto|].
  intros [-> | I].
  - rewrite String.eqb_refl, zsum_other by exact NI. lia.
  - destruct (String.eqb x n) eqn:E.
    + apply String.eqb_eq in E. subst. contradiction.
    + rewrite IH by exact I. lia.
Qed.

(** The cells of one date, over distinct column values that cover its
    rows, add up to the traffic of the date. *)
Lemma cells_partition (df : DataFrame) (col : row -> string)
  (d : Timestamp) (names : list string) :
  NoDup names ->
  (forall r, In r df -> date r = d -> In (col r) names) ->
  zsum (map (fun c => zsum (map traffic (cell_rows df col d c))) names)
  = day_traffic df d.
Proof.
  intros ND. unfold day_traffic, cell_rows.
  induction df as [|r df IH]; intros A.
  - simpl. clear. induction names; simpl; [reflexivity | assumption].
  - cbn [filter]. destruct (Z.eqb (date r) d) eqn:E.
    + cbn [andb].
      replace (zsum (map traffic
                 (r :: filter (fun r0 => Z.eqb (date r0) d) df)))
        with (traffic r
              + zsum (map traffic
                   (filter (fun r0 => Z.eqb (date r0) d) df)))
        by reflexivity.
      rewrite <- IH by (intros x I; apply A; right; exact I).
      rewrite <- (zsum_one (col r) (traffic r) _ names ND)
        by (apply A; [left; reflexivity | apply Z.eqb_eq, E]).
      f_equal. apply map_ext. intros c.
      destruct (String.eqb (col r) c); reflexivity.
    + cbn [andb]. apply IH. intros x I. apply A. right. exact I.
Qed.

Lemma zsum_cons (a : Z) (l : list Z) : zsum (a :: l) = a + zsum l.
Proof. reflexivity. Qed.

Lemma nansum_cells_acc (os : list (option Z)) (a : Z) :
  fold_left fadd
    (filter (fun x => negb (is_nan x)) (map cell_float os)) (Fin (Zq a))
  = Fin (Zq (a + zsum (map cell_int os))).
Proof.
  revert a. induction os as [|o os IH]; intros a.
  - simpl. rewrite Z.add_0_r. reflexivity.
  - destruct o as [z|]; cbn [map cell_float cell_int]; rewrite zsum_cons.
    + rewrite of_int_Zq. cbn [filter is_nan negb fold_left fadd].
      rewrite <- Zq_add, IH. f_equal. f_equal. lia.
    + cbn [filter is_nan negb]. rewrite IH. f_equal.
Qed.

(** Skipping the missing cells, the float sum of a row of cells is the
    integer sum of the cells present. *)
Lemma nansum_cells (os : list (option Z)) :
  nansum (map cell_float os) = of_int (zsum (map cell_int os)).
Proof.
  unfold nansum, fsum. change (Fin 0%Qc) with (Fin (Zq 0)).
  rewrite nansum_cells_acc, of_int_Zq. reflexivity.
Qed.

Lemma pcolumn_int_at (df : DataFrame) (col : row -> string) (c : string)
  (d : Timestamp) (i : nat) :
  all_present df col = true -> nth_error (pidx df col) i = Some d ->
  nth i (to_ints (pcolumn df col c)) 0 = cell_int (cell df col d c).
Proof.
  intros A N. unfold pcolumn, unstack_column. rewrite A. cbn [to_ints].
  apply nth_error_nth. rewrite !nth_error_map, N. reflexivity.
Qed.

(** The row sums of a pivot, on a table whose traffic does not overflow:
    at each date of the index, the traffic of the rows of that date. *)
Lemma sum_axis1_day (df : DataFrame) (col : row -> string)
  (d : Timestamp) (i : nat) :
  small_counts df ->
  nth_error (pidx df col) i = Some d ->
  nth_error (to_floats (sum_axis1 (pivot_table df col))) i
  = Some (of_int (day_traffic df d)).
Proof.
  intros NO N.
  assert (L : (i < length (pidx df col))%nat)
    by (apply nth_error_Some; congruence).
  assert (S : zsum (map (fun c => cell_int (cell df col d c)) (pnames df col))
              = day_traffic df d).
  { rewrite <- (cells_partition df col d (pnames df col)).
    - f_equal. apply map_ext. intros c. apply cell_int_rows, NO.
    - apply sorted_unique_nodup.
    - intros r I _. apply pnames_in. exists r. auto. }
  rewrite pivot_table_cells. unfold sum_axis1. cbn [index columns].
  destruct (map (fun c => (c, pcolumn df col c)) (pnames df col))
    as [|p cols] eqn:E.
  - exfalso. apply map_eq_nil in E.
    destruct (proj1 (pidx_in df col d) (nth_error_In _ _ N)) as (r & I & _).
    assert (Ic : In (col r) (pnames df col))
      by (apply pnames_in; exists r; auto).
    rewrite E in Ic. exact Ic.
  - rewrite <- E. rewrite forallb_map_eq. cbn [snd].
    rewrite (forallb_ext_eq _ (fun _ => all_present df col))
      by (intros c; apply pcolumn_is_int).
    assert (Nn : pnames df col <> []).
    { intros E0. rewrite E0 in E. discriminate. }
    clear E.
    destruct (all_present df col) eqn:A.
    + assert (F : forallb (fun _ : string => true) (pnames df col) = true)
        by (apply forallb_forall; reflexivity).
      rewrite F. cbn [to_floats].
      rewrite !nth_error_map, nth_error_seq by exact L.
      cbn [option_map Nat.add]. f_equal. f_equal.
      rewrite map_map. cbn [snd].
      rewrite (map_ext _ (fun c => cell_int (cell df col d c)))
        by (intros c; apply (pcolumn_int_at df col c d i A N)).
      rewrite <- S. apply sum64_exact. rewrite S.
      destruct NO as [A0 B0].
      pose proof (zsum_filter_le traffic
                    (fun r => Z.eqb (date r) d) df A0) as R.
      unfold day_traffic, in_range. lia.
    + assert (F : forallb (fun _ : string => false) (pnames df col) = false).
      { destruct (pnames df col); [contradiction | reflexivity]. }
      rewrite F. cbn [to_floats].
      rewrite nth_error_map, nth_error_seq by exact L.
      cbn [option_map Nat.add]. f_equal.
      rewrite map_map. cbn [snd].
      rewrite (map_ext _ (fun c => cell_float (cell df col d c))).
      * rewrite <- (map_map (fun c => cell df col d c) cell_float).
        rewrite nansum_cells, map_map, S. reflexivity.
      * intros c. apply nth_error_nth.
        unfold pcolumn, unstack_column. rewrite A. cbn [to_floats].
        rewrite !nth_error_map, N. reflexivity.
Qed.

(** X15. On a Dataset whose traffic counts are not negative and add up
    to at most 2^53 (so that every count and every sum of counts is a
    float64 exactly), the total column of the browser pivot holds, at each
    date, the traffic of all rows of that date, and the total column of
    the device pivot the traffic of the desktop, mobile and tablet rows of
    that date. *)
Theorem pivot_total_day_traffic (df : DataFrame) :
  small_counts df ->
  (forall f d, by_browser df = Ok f -> In d (index f) ->
     at_date f "total" d = Some (of_int (day_traffic df d)))
  /\ (forall f d, by_device df = Ok f -> In d (index f) ->
        at_date f "total" d
        = Some (of_int (day_traffic (known_devices df) d))).
Proof.
  intros NO. split.
  - intros f d. rewrite by_browser_eq.
    destruct (existsb _ _); [| discriminate].
    remember (pivot_table df browser_name) as pt eqn:Ept.
    intros [= <-]. cbn [index]. intros Id.
    destruct (position_in d _ Id) as (i & P & N).
    unfold at_date. cbn [index columns]. rewrite P, !lookup_set_column.
    change (String.eqb "total" "chrome_pct") with false.
    change (String.eqb "total" "total") with true.
    cbv iota. rewrite Ept. apply sum_axis1_day; assumption.
  - intros f d. rewrite by_device_eq.
    destruct (existsb _ _); [| discriminate].
    destruct (existsb _ _); [| discriminate].
    intros [= <-]. rewrite device_frame_index. intros Id.
    destruct (position_in d _ Id) as (i & P & N).
    rewrite <- device_frame_index in P.
    destruct (at_date_device_frame df d i P) as (At & _).
    rewrite At. apply sum_axis1_day; [| exact N].
    apply small_counts_filter, NO.
Qed.

Lemma pivot_total_day_traffic_witness :
  raises (by_browser all_devices_dataset) = false
  /\ raises (by_device all_devices_dataset) = false
  /\ (forall f d, by_browser all_devices_dataset = Ok f ->
        In d (index f) ->
        at_date f "total" d
        = Some (of_int (day_traffic all_devices_dataset d)))
  /\ (forall f d, by_device all_devices_dataset = Ok f ->
        In d (index f) ->
        at_date f "total" d
        = Some (of_int
            (day_traffic (known_devices all_devices_dataset) d))).
Proof.
  split; [reflexivity|]. split; [reflexivity|].
  apply (pivot_total_day_traffic all_devices_dataset).
  split; [| vm_compute; discriminate].
  intros r I. simpl in I.
  repeat (destruct I as [<- | I]; [simpl; lia|]). destruct I.
Defined.

(* ================================================================== *)
(** * Well-formed frames *)

Lemma Ok_inj {A : Type} (a b : A) : Ok a = Ok b -> a = b.
Proof. intros [= E]. exact E. Qed.

Lemma sort_keys_gkey {K : Type} `{Key K} (l : list (group K)) :
  map gkey (sort_by_key l) = sort_keys (map gkey l).
Proof.
  assert (I : forall g m,
            map gkey (insert_by_key g m) = insert_key (gkey g) (map gkey m)).
  { intros g m. induction m as [|h m IH]; simpl; [reflexivity|].
    destruct (kltb (gkey g) (gkey h)); simpl; [reflexivity|].
    rewrite IH. reflexivity. }
  induction l as [|g l IH]; simpl; [reflexivity|].
  rewrite I, IH. reflexivity.
Qed.

Lemma sort_keys_sorted {K : Type} `{KeyLaws K} `{!KeyOrder K} (l : list K) :
  NoDup l -> StronglySorted klt (sort_keys l).
Proof.
  intros ND.
  assert (E : map gkey (map (fun k => mk_group k 0 0) l) = l)
    by (rewrite map_map; apply map_id).
  rewrite <- E at 1. rewrite <- sort_keys_gkey.
  apply sorted_keys, sort_by_key_sorted. rewrite E. exact ND.
Qed.

Lemma set_column_names (n : string) (s : Series)
  (cols : list (string * Series)) :
  map fst (set_column n s cols)
  = if existsb (String.eqb n) (map fst cols) then map fst cols
    else map fst cols ++ [n].
Proof.
  induction cols as [|[m s0] cols IH]; simpl; [reflexivity|].
  destruct (String.eqb n m); simpl; [reflexivity|].
  rewrite IH. destruct (existsb _ _); reflexivity.
Qed.

Lemma set_column_in (n m : string) (s s' : Series)
  (cols : list (string * Series)) :
  In (m, s') (set_column n s cols) -> s' = s \/ In (m, s') cols.
Proof.
  induction cols as [|[k s0] cols IH]; simpl.
  - intros [[= _ <-] | []]. auto.
  - destruct (String.eqb n k); simpl.
    + intros [[= _ <-] | I]; auto.
    + intros [E | I]; [auto|]. destruct (IH I); auto.
Qed.

Lemma setitem_well_formed (f : Frame) (n : string) (s : Series) :
  well_formed f -> length (to_floats s) = length (index f) ->
  well_formed (setitem f n s).
Proof.
  intros (S & ND & L) Ls. unfold well_formed, setitem. cbn [index columns].
  split; [exact S|]. split.
  - rewrite set_column_names.
    destruct (existsb _ _) eqn:E; [exact ND|].
    apply (Permutation_NoDup (l := n :: map fst (columns f))).
    + apply Permutation_cons_append.
    + constructor; [| exact ND]. intros I.
      apply existsb_eqb_in in I. congruence.
  - intros m s' I. destruct (set_column_in _ _ _ _ _ I) as [-> | I'];
      [exact Ls | apply (L m s' I')].
Qed.

Lemma pivot_well_formed (df : DataFrame) (col : row -> string) :
  well_formed (pivot_table df col).
Proof.
  rewrite pivot_table_cells. unfold well_formed. cbn [index columns].
  rewrite map_map. cbn [fst]. rewrite map_id. split; [| split].
  - apply klt_Z. apply sort_keys_sorted, unique_nodup.
  - apply sorted_unique_nodup.
  - intros n s I. apply in_map_iff in I. destruct I as (c & [= _ <-] & _).
    apply pcolumn_length.
Qed.

Lemma devices_present_sub (df : DataFrame) (dev : string) :
  In dev (devices_present df) -> In dev top_devices.
Proof. unfold devices_present. rewrite filter_In. tauto. Qed.

(** The columns of the device pivot are the device types present, in
    alphabetical order. *)
Lemma device_names (df : DataFrame) :
  pnames (known_devices df) device_type = devices_present df.
Proof.
  apply sorted_same_elements.
  - apply sort_keys_sorted, unique_nodup.
  - apply sorted_filter. repeat constructor.
  - intros dev. rewrite pnames_in. unfold devices_present.
    rewrite filter_In, existsb_exists. split.
    + intros (r & I & E). apply known_devices_in in I. destruct I as [I D].
      apply isin_in in D. rewrite E in D. split; [exact D|].
      exists r. split; [exact I|]. apply String.eqb_eq, E.
    + intros [D (r & I & E)]. apply String.eqb_eq in E.
      exists r. split; [| exact E]. apply known_devices_in.
      split; [exact I|]. apply isin_in. rewrite E. exact D.
Qed.

Lemma existsb_app_false (n : string) (l m : list string) :
  existsb (String.eqb n) l = false -> existsb (String.eqb n) m = false ->
  existsb (String.eqb n) (l ++ m) = false.
Proof. intros A B. rewrite existsb_app, A, B. reflexivity. Qed.

Lemma not_a_device (df : DataFrame) (n : string) :
  existsb (String.eqb n) top_devices = false ->
  existsb (String.eqb n) (devices_present df) = false.
Proof.
  intros N. destruct (existsb (String.eqb n) (devices_present df)) eqn:E;
    [| reflexivity].
  apply existsb_eqb_in, devices_present_sub, existsb_eqb_in in E.
  congruence.
Qed.

(** X16. The two pivot frames are well formed when they are computed:
    the dates of the index increase strictly, the column names are
    distinct, and every column, the derived ones included, has one cell
    per date.  The device pivot lists the device types present among
    desktop, mobile and tablet in alphabetical order, followed by total,
    mobile_tablet and mobile_tablet_pct; the browser pivot has a column
    for every browser of the Dataset. *)
Theorem pivot_frames_well_formed (df : DataFrame) :
  (forall f, by_device df = Ok f ->
     well_formed f
     /\ map fst (columns f)
        = devices_present df
          ++ ["total"; "mobile_tablet"; "mobile_tablet_pct"]%string)
  /\ (forall f, by_browser df = Ok f ->
        well_formed f
        /\ forall r, In r df -> In (browser_name r) (map fst (columns f))).
Proof.
  split.
  - intros f. rewrite by_device_eq.
    destruct (existsb _ _); [| discriminate].
    destruct (existsb _ _); [| discriminate].
    intros [= <-].
    set (kd := known_devices df).
    set (pt := pivot_table kd device_type).
    set (mt := series_add (pcolumn kd device_type "mobile")
                          (pcolumn kd device_type "tablet")).
    set (pc := series_mul_int (series_truediv mt (sum_axis1 pt)) 100).
    assert (E : device_frame df
                = setitem (setitem (setitem pt "total" (sum_axis1 pt))
                             "mobile_tablet" mt) "mobile_tablet_pct" pc)
      by reflexivity.
    assert (Ip : index pt = pidx kd device_type) by apply pivot_index.
    rewrite E. split.
    + apply setitem_well_formed; [apply setitem_well_formed;
        [apply setitem_well_formed; [apply pivot_well_formed|] |] |];
        cbn [setitem index].
      * apply sum_axis1_length.
      * unfold mt. rewrite series_add_length, !pcolumn_length, Ip.
        apply Nat.min_id.
      * unfold pc, mt.
        rewrite ratio_length, series_add_length, !pcolumn_length,
          sum_axis1_length, Ip.
        rewrite !Nat.min_id. reflexivity.
    + unfold setitem. cbn [columns index].
      assert (N0 : map fst (columns pt) = devices_present df).
      { unfold pt. rewrite pivot_table_cells. cbn [columns].
        rewrite map_map. cbn [fst]. rewrite map_id. apply device_names. }
      rewrite set_column_names, set_column_names, set_column_names, N0.
      rewrite (not_a_device df "total" eq_refl).
      rewrite (existsb_app_false "mobile_tablet" _ ["total"%string]
                 (not_a_device df "mobile_tablet" eq_refl) eq_refl).
      rewrite (existsb_app_false "mobile_tablet_pct" _
                 ["mobile_tablet"%string]
                 (existsb_app_false "mobile_tablet_pct" _ ["total"%string]
                    (not_a_device df "mobile_tablet_pct" eq_refl) eq_refl)
                 eq_refl).
      rewrite <- !app_assoc. reflexivity.
  - intros f. rewrite by_browser_eq.
    destruct (existsb _ _); [| discriminate].
    intros Ef. apply Ok_inj in Ef. subst f.
    set (pt := pivot_table df browser_name).
    set (pc := series_mul_int
                 (series_truediv (pcolumn df browser_name "Chrome")
                    (sum_axis1 pt)) 100).
    assert (Ip : index pt = pidx df browser_name) by apply pivot_index.
    assert (E : mk_frame (pidx df browser_name)
                  (set_column "chrome_pct" pc
                     (set_column "total" (sum_axis1 pt) (columns pt)))
                = setitem (setitem pt "total" (sum_axis1 pt))
                    "chrome_pct" pc).
    { unfold setitem. cbn [index columns]. rewrite Ip. reflexivity. }
    rewrite E. split.
    + apply setitem_well_formed; [apply setitem_well_formed;
        [apply pivot_well_formed|] |]; cbn [setitem index].
      * apply sum_axis1_length.
      * unfold pc.
        rewrite ratio_length, pcolumn_length, sum_axis1_length, Ip.
        apply Nat.min_id.
    + intros r I. unfold setitem. cbn [columns index].
      assert (I0 : In (browser_name r) (map fst (columns pt))).
      { unfold pt. rewrite pivot_table_cells. cbn [columns].
        rewrite map_map. cbn [fst]. rewrite map_id.
        apply pnames_in. exists r. auto. }
      assert (G : forall n s cols, In (browser_name r) (map fst cols) ->
                  In (browser_name r) (map fst (set_column n s cols))).
      { intros n s cols J. rewrite set_column_names.
        destruct (existsb _ _); [exact J | apply in_or_app; auto]. }
      apply G, G, I0.
Qed.

(* ================================================================== *)
(** * Range of the percentages *)

Lemma Zq_le (a b : Z) : (Zq a <= Zq b)%Qc <-> a <= b.
Proof.
  unfold Qcle, Zq. cbn [this Q2Qc]. rewrite Qred_le, <- Zle_Qle.
  reflexivity.
Qed.

Lemma Zq_pos (t : Z) : 0 < t -> (Zq 0 < Zq t)%Qc.
Proof.
  intros P. apply Qcnot_le_lt. rewrite Zq_le. lia.
Qed.

Lemma pct_bounds (c t : Z) :
  0 <= c <= t -> 0 < t ->
  exists q, pct c t = Fin q /\ (Zq 0 <= q)%Qc /\ (q <= Zq 100)%Qc.
Proof.
  intros R P. exists (Zq (100 * c) / Zq t)%Qc.
  split; [apply pct_nonzero; lia|].
  assert (N : Zq t <> 0%Qc) by (apply (Zq_neq0 t); lia).
  assert (E : (Zq (100 * c) / Zq t * Zq t = Zq (100 * c))%Qc)
    by (field; exact N).
  split; apply (Qcmult_lt_0_le_reg_r _ _ (Zq t) (Zq_pos t P)); rewrite E.
  - rewrite <- Zq_mul. apply Zq_le. lia.
  - rewrite <- Zq_mul. apply Zq_le. lia.
Qed.

Lemma zsum_le_pointwise (f g : row -> Z) (l : DataFrame) :
  (forall r, In r l -> 0 <= f r <= g r) ->
  0 <= zsum (map f l) <= zsum (map g l).
Proof.
  induction l as [|r l IH]; simpl; intros A; [lia|].
  pose proof (A r (or_introl eq_refl)).
  assert (0 <= zsum (map f l) <= zsum (map g l))
    by (apply IH; intros x I; apply A; auto).
  lia.
Qed.

Lemma consistent_filter (p : row -> bool) (df : DataFrame) :
  consistent df -> consistent (filter p df).
Proof.
  intros [A B]. split.
  - intros r I. apply filter_In in I. apply A, I.
  - assert (T : forall r, In r df -> 0 <= traffic r)
      by (intros r I; specialize (A r I); lia).
    pose proof (zsum_filter_le traffic p df T). lia.
Qed.

(** The percentage column of an aggregation of consistent rows. *)
Lemma with_pct_range {K : Type} `{KeyLaws K} (key : row -> K)
  (rows : DataFrame) (e : agg K) :
  consistent rows ->
  In e (with_pct (groupby_sum key rows)) -> pct_in_range e.
Proof.
  intros C I. apply with_pct_in in I. destruct I as [I P].
  apply groupby_sum_in in I. destruct I as [_ G]. cbn [gkey] in G.
  unfold group_of, members in G. injection G as Et Ec.
  destruct (consistent_filter (fun r => keqb (key r) (akey e)) rows C)
    as [A B].
  set (m := filter (fun r => keqb (key r) (akey e)) rows) in *.
  pose proof (zsum_le_pointwise cookies_supported traffic m A) as R.
  assert (St : sum64 (map traffic m) = zsum (map traffic m))
    by (apply sum64_exact; unfold in_range; lia).
  assert (Sc : sum64 (map cookies_supported m)
               = zsum (map cookies_supported m))
    by (apply sum64_exact; unfold in_range; lia).
  rewrite St in Et. rewrite Sc in Ec.
  unfold pct_in_range. rewrite P.
  destruct (Z.eq_dec (atraffic e) 0) as [Z0 | NZ].
  - left. split; [exact Z0|].
    assert (C0 : acookies e = 0) by lia.
    rewrite Z0, C0. reflexivity.
  - right. split; [lia|]. apply pct_bounds; lia.
Qed.

(** X17. On a Dataset in which every row supports cookies on part of its
    traffic (0 <= cookies_supported <= traffic) and the traffic adds up
    within int64, every percentage of the daily series, of the per-device
    totals and of the slice-and-dice series is a number between 0 and 100,
    or NaN on a group without any traffic. *)
Theorem cookie_support_pct_range (df : DataFrame)
  (device_option browser_option : option string) :
  consistent df ->
  (forall e, In e (by_day df) -> pct_in_range e)
  /\ (forall e, In e (total_by_device df) -> pct_in_range e)
  /\ (forall e, In e (slice_dice_df df device_option browser_option) ->
        pct_in_range e).
Proof.
  intros C. split; [| split]; intros e.
  - apply with_pct_range, C.
  - apply with_pct_range, consistent_filter, C.
  - unfold slice_dice_df. rewrite filter_df_by_options_passes.
    apply with_pct_range, consistent_filter, consistent_filter, C.
Qed.

Lemma cookie_support_pct_range_witness :
  (forall e, In e (by_day example_dataset) -> pct_in_range e)
  /\ (forall e, In e (total_by_device example_dataset) -> pct_in_range e)
  /\ (forall e, In e (slice_dice_df example_dataset
                        (Some "mobile"%string) None) ->
        pct_in_range e).
Proof.
  apply (cookie_support_pct_range example_dataset).
  split; [| reflexivity].
  intros r I. simpl in I.
  repeat (destruct I as [<- | I]; [simpl; lia|]). destruct I.
Defined.

(** X18. When every row is of a desktop, mobile or tablet device and the
    Dataset has at most fourteen browsers, the restriction keeps every
    row, and without a selection the slice-and-dice series and its trend
    line are the daily series and its trend line. *)
Theorem slice_dice_unfiltered (df : DataFrame) :
  (forall r, In r df -> In (device_type r) top_devices) ->
  (length (browsers df) <= 14)%nat ->
  filtered_df df = df
  /\ slice_dice_df df None None = by_day df
  /\ best_fit_slice_dice df None None = best_fit_cookie_support df.
Proof.
  intros D B.
  assert (E : filtered_df df = df).
  { unfold filtered_df. apply filter_all. intros r I.
    apply andb_true_iff. split; apply isin_in.
    - apply D, I.
    - apply (top_browsers_all df B r I). }
  assert (S : slice_dice_df df None None = by_day df).
  { unfold slice_dice_df, by_day. cbn [filter_df_by_options].
    rewrite E. reflexivity. }
  split; [exact E|]. split; [exact S|].
  unfold best_fit_slice_dice, best_fit_cookie_support. cbv zeta.
  rewrite S. reflexivity.
Qed.

Lemma slice_dice_unfiltered_witness :
  filtered_df example_dataset = example_dataset
  /\ slice_dice_df example_dataset None None = by_day example_dataset
  /\ best_fit_slice_dice example_dataset None None
     = best_fit_cookie_support example_dataset.
Proof.
  apply (slice_dice_unfiltered example_dataset).
  - intros r I. simpl in I.
    repeat (destruct I as [<- | I]; [simpl; tauto|]). destruct I.
  - vm_compute. lia.
Defined.
